(** * Alpha assistant: command dispatch and dialogue engine

    A shallow embedding of [alpha_assistant.py].  The Python functions
    [speak], [take_command], the capability handlers,
    [parse_and_execute] and [main] become programs of a small
    state-and-exception monad over a [World].  The world holds what the
    microphone and the keyboard are going to deliver, the answers of
    the libraries the program calls, the files, and a trace of
    everything the program said and did.

    Python [str] values are lists of characters; the character type is
    Rocq's [ascii], read as the code points U+0000 to U+00FF, and
    [str.lower], [str.strip] are the Python operations on that range.
    Logging is left out: it goes to the log, not to the user. *)

From Stdlib Require Import List Ascii String Bool Arith Lia.
Import ListNotations.

(** ** Python string operations *)

Module Py.

Definition str := list ascii.

Definition lit (s : string) : str := list_ascii_of_string s.
Arguments lit s%_string.

(** [not s] on a string: the empty string is falsy. *)
Definition falsy (s : str) : bool :=
  match s with [] => true | _ :: _ => false end.

Definition str_eqb (a b : str) : bool :=
  if list_eq_dec ascii_dec a b then true else false.

(** [str.isspace] on one character, for code points below 256: TAB to
    CR, FS to US, SPACE, NEL and NBSP. *)
Definition isspace (c : ascii) : bool :=
  let n := nat_of_ascii c in
  ((9 <=? n) && (n <=? 13)) || ((28 <=? n) && (n <=? 32))
  || (n =? 133) || (n =? 160).

(** [str.lower] on one character, for code points below 256: A to Z and
    the upper-case letters of U+00C0 to U+00DE (all but the
    multiplication sign U+00D7) move up by 32. *)
Definition lower_char (c : ascii) : ascii :=
  let n := nat_of_ascii c in
  if ((65 <=? n) && (n <=? 90)) || ((192 <=? n) && (n <=? 214))
     || ((216 <=? n) && (n <=? 222))
  then ascii_of_nat (n + 32) else c.

Definition lower (s : str) : str := map lower_char s.

Fixpoint lstrip (s : str) : str :=
  match s with
  | [] => []
  | c :: s' => if isspace c then lstrip s' else s
  end.

Fixpoint rstrip (s : str) : str :=
  match s with
  | [] => []
  | c :: s' =>
      let r := rstrip s' in
      if isspace c && falsy r then [] else c :: r
  end.

(** [s.strip()]: whitespace removed at both ends. *)
Definition strip (s : str) : str := lstrip (rstrip s).

Fixpoint startswith (p s : str) : bool :=
  match p, s with
  | [], _ => true
  | _ :: _, [] => false
  | a :: p', b :: s' => Ascii.eqb a b && startswith p' s'
  end.

(** [sub in s]: [sub] occurs in [s] as a contiguous substring. *)
Fixpoint contains (sub s : str) : bool :=
  startswith sub s
  || match s with
     | [] => false
     | _ :: s' => contains sub s'
     end.

(** [any(w in s for w in ws)]. *)
Definition any_in (ws : list str) (s : str) : bool :=
  existsb (fun w => contains w s) ws.

(** One left-to-right pass of [str.replace] for a non-empty pattern:
    [skip] counts the characters of a match still to be dropped. *)
Fixpoint replace_from (old new : str) (skip : nat) (s : str) : str :=
  match s with
  | [] => []
  | c :: s' =>
      match skip with
      | S k => replace_from old new k s'
      | O =>
          if startswith old s
          then new ++ replace_from old new (List.length old - 1) s'
          else c :: replace_from old new 0 s'
      end
  end.

(** [s.replace(old, new)]: every non-overlapping occurrence, scanning
    from the left; an empty [old] matches before every character and at
    the end. *)
Definition replace (old new s : str) : str :=
  match old with
  | [] => new ++ flat_map (fun c => c :: new) s
  | _ :: _ => replace_from old new 0 s
  end.

End Py.

Import Py.

(** ** Text-mode files

    [remember_to_file] and [read_memory] open the file in text mode and
    leave [newline] at its default, [None].  Python's [open] then
    translates line ends in both directions: on writing, every LF
    becomes [os.linesep]; on reading (universal newlines), CR LF and a
    CR on its own are both returned as LF. *)

Module TextIO.

Inductive platform := Posix | Windows.

Definition LF : ascii := ascii_of_nat 10.
Definition CR : ascii := ascii_of_nat 13.

Definition linesep (p : platform) : str :=
  match p with
  | Posix => [LF]
  | Windows => [CR; LF]
  end.

(** What [f.write(s)] puts into the file. *)
Definition encode_newlines (p : platform) (s : str) : str :=
  flat_map (fun c => if Ascii.eqb c LF then linesep p else [c]) s.

(** What [f.read()] returns for the stored characters [s]. *)
Fixpoint decode_newlines (s : str) : str :=
  match s with
  | [] => []
  | c :: s' =>
      if Ascii.eqb c CR
      then LF :: match s' with
                 | [] => []
                 | d :: s'' =>
                     if Ascii.eqb d LF then decode_newlines s''
                     else decode_newlines s'
                 end
      else c :: decode_newlines s'
  end.

End TextIO.

Import TextIO.

(** ** The world the assistant runs in *)

(** What one attempt on the voice channel delivers. *)
Inductive recognition :=
| Transcript (query : str)   (* recognize_google returns a string *)
| Unintelligible             (* sr.UnknownValueError *)
| ServiceDown                (* sr.RequestError *)
| RecognizerFault.           (* any other Exception *)

Inductive voice_outcome :=
| MicUnavailable             (* sr.Microphone() cannot be opened *)
| ListenFault                (* r.listen raises, not a WaitTimeoutError *)
| Silence                    (* sr.WaitTimeoutError *)
| Heard (r : recognition).

(** What one call of [input] on the keyboard delivers. *)
Inductive typed_input :=
| Line (l : str)
| CtrlC.

Inductive wiki_outcome :=
| Summary (s : str)
| DisambiguationError
| PageError
| WikiFault.

Inductive exn :=
| OSError
| EOFError
| KeyboardInterrupt.

(** [except Exception] catches everything but [KeyboardInterrupt]. *)
Definition is_Exception (e : exn) : bool :=
  match e with
  | KeyboardInterrupt => false
  | _ => true
  end.

(** Entry into a capability handler with its arguments.  The program
    itself keeps no such record; the trace does, so that a statement can
    say which handler ran on a turn and with what. *)
Inductive handler_call :=
| H_tell_time
| H_tell_date
| H_tell_joke
| H_cpu_status
| H_send_email (to_address subject body : str)
| H_take_screenshot
| H_search_in_chrome (query : str)
| H_wiki_lookup (term : str) (sentences : nat)
| H_play_song (song_name : str)
| H_remember_to_file (note filename : str)
| H_read_memory (filename : str).

Inductive event :=
| Spoke (text : str)                     (* speak: printed and sent to TTS *)
| Prompted (prompt : str)                (* the prompt of input *)
| Invoked (h : handler_call)
| WikiQueried (term : str) (sentences : nat)
| BrowserTab (url : str)
| YouTubeStarted (song_name : str)
| SmtpSession (user to_address message : str)
| ScreenCaptured (filename : str).

(** The collaborators the program only calls: each field says what the
    collaborator answers. *)
Record Env := mkEnv {
  os : platform;
  environ : str -> option str;             (* os.getenv *)
  clock_hour : nat;
  clock_time : str;                        (* strftime("%I:%M:%S %p") *)
  clock_date : str;                        (* strftime("%A, %d %B %Y") *)
  pyjokes : option str;                    (* None: get_joke raises *)
  wikipedia : str -> nat -> wiki_outcome;
  browser_fails : str -> bool;
  youtube_fails : str -> bool;
  smtp_fails : str -> str -> str -> bool;  (* user, recipient, message *)
  psutil : option (str * option str);      (* cpu percent, battery percent *)
  pyautogui : option str;                  (* file the screenshot went to *)
  write_fails : str -> bool;
  read_fails : str -> bool
}.

Record World := mkWorld {
  env : Env;
  voice : list voice_outcome;    (* one entry per microphone attempt *)
  keyboard : list typed_input;   (* one entry per input() *)
  files : str -> option str;     (* file name to its stored characters *)
  trace : list event             (* oldest first *)
}.

Definition emit (e : event) (w : World) : World :=
  mkWorld (env w) (voice w) (keyboard w) (files w) (trace w ++ [e]).

Definition set_voice (v : list voice_outcome) (w : World) : World :=
  mkWorld (env w) v (keyboard w) (files w) (trace w).

Definition set_keyboard (k : list typed_input) (w : World) : World :=
  mkWorld (env w) (voice w) k (files w) (trace w).

Definition store (filename content : str) (w : World) : World :=
  mkWorld (env w) (voice w) (keyboard w)
    (fun f => if str_eqb f filename then Some content else files w f)
    (trace w).

(** The handler calls recorded in a trace, in order. *)
Fixpoint invocations (t : list event) : list handler_call :=
  match t with
  | [] => []
  | Invoked h :: t' => h :: invocations t'
  | _ :: t' => invocations t'
  end.

Fixpoint smtp_sessions (t : list event) : nat :=
  match t with
  | [] => 0
  | SmtpSession _ _ _ :: t' => S (smtp_sessions t')
  | _ :: t' => smtp_sessions t'
  end.

(** How often [text] was spoken. *)
Fixpoint times_spoken (text : str) (t : list event) : nat :=
  match t with
  | [] => 0
  | Spoke x :: t' => (if str_eqb x text then 1 else 0) + times_spoken text t'
  | _ :: t' => times_spoken text t'
  end.

(** ** The monad: state and exceptions *)

Inductive result (A : Type) :=
| Ret (a : A)
| Raise (e : exn).

Arguments Ret {A} a.
Arguments Raise {A} e.

Definition M (A : Type) : Type := World -> result A * World.

Definition ret {A} (a : A) : M A := fun w => (Ret a, w).

Definition raise {A} (e : exn) : M A := fun w => (Raise e, w).

Definition bind {A B} (c : M A) (k : A -> M B) : M B :=
  fun w =>
    match c w with
    | (Ret a, w') => k a w'
    | (Raise e, w') => (Raise e, w')
    end.

Definition tell (e : event) : M unit := fun w => (Ret tt, emit e w).

Definition ask {A} (f : Env -> A) : M A := fun w => (Ret (f (env w)), w).

(** [try: c except ...: h e]. *)
Definition try_except {A} (c : M A) (h : exn -> M A) : M A :=
  fun w =>
    match c w with
    | (Ret a, w') => (Ret a, w')
    | (Raise e, w') => h e w'
    end.

Declare Scope prog_scope.
Delimit Scope prog_scope with prog.
Bind Scope prog_scope with M.

Notation "x <- c ;; k" := (bind c (fun x => k))
  (at level 61, c at next level, right associativity) : prog_scope.
Notation "c ;; k" := (bind c (fun _ => k))
  (at level 61, right associativity) : prog_scope.

Open Scope prog_scope.

(** ** Speech output and the clock *)

Definition speak (text : str) : M unit :=
  if falsy text then ret tt else tell (Spoke text).

Definition get_time : M str := ask clock_time.

Definition get_date : M str := ask clock_date.

Definition tell_time : M unit :=
  tell (Invoked H_tell_time) ;;
  t <- get_time ;;
  speak (lit "The current time is " ++ t).

Definition tell_date : M unit :=
  tell (Invoked H_tell_date) ;;
  d <- get_date ;;
  speak (lit "Today is " ++ d).

Definition tell_joke : M unit :=
  tell (Invoked H_tell_joke) ;;
  j <- ask pyjokes ;;
  match j with
  | Some joke => speak joke
  | None => speak (lit "Sorry, I could not fetch a joke.")
  end.

Definition wishme : M unit :=
  hour <- ask clock_hour ;;
  (if (6 <=? hour) && (hour <? 12) then speak (lit "Good morning.")
   else if (12 <=? hour) && (hour <? 18) then speak (lit "Good afternoon.")
   else if (18 <=? hour) && (hour <? 24) then speak (lit "Good evening.")
   else speak (lit "Good night.")) ;;
  speak (lit "Welcome back. Alpha is at your service.") ;;
  tell_time ;;
  tell_date.

Definition cpu_status : M unit :=
  tell (Invoked H_cpu_status) ;;
  r <- ask psutil ;;
  match r with
  | Some (usage, battery) =>
      speak (lit "CPU usage is at " ++ usage ++ lit " percent.") ;;
      match battery with
      | Some percent =>
          speak (lit "Battery is at " ++ percent ++ lit " percent.")
      | None =>
          speak (lit "Battery information is not available on this system.")
      end
  | None => speak (lit "Unable to retrieve CPU or battery status.")
  end.

(** ** Input resolution *)

(** [input(prompt)]: the prompt is printed, then one line is read; end
    of input raises [EOFError], an interrupt [KeyboardInterrupt]. *)
Definition input (prompt : str) : M str :=
  fun w =>
    let w1 := emit (Prompted prompt) w in
    match keyboard w with
    | [] => (Raise EOFError, w1)
    | Line l :: rest => (Ret l, set_keyboard rest w1)
    | CtrlC :: rest => (Raise KeyboardInterrupt, set_keyboard rest w1)
    end.

(** The next attempt on the voice channel; nothing scripted means
    nobody speaks. *)
Definition next_voice (w : World) : voice_outcome :=
  match voice w with
  | [] => Silence
  | v :: _ => v
  end.

Definition microphone : M voice_outcome :=
  fun w => (Ret (next_voice w), set_voice (tl (voice w)) w).

(** [return input("Type command: ").strip().lower()]. *)
Definition type_command : M str :=
  l <- input (lit "Type command: ") ;;
  ret (lower (strip l)).

(** [take_command()], always called with its default timeouts. *)
Definition take_command : M str :=
  v <- microphone ;;
  match v with
  | MicUnavailable => raise OSError
  | ListenFault => speak (lit "Listening...") ;; raise OSError
  | Silence =>
      speak (lit "Listening...") ;;
      speak (lit "No speech detected within the timeout. Please type your command.") ;;
      type_command
  | Heard r =>
      speak (lit "Listening...") ;;
      speak (lit "Recognizing...") ;;
      match r with
      | Transcript query => ret (lower query)
      | Unintelligible =>
          speak (lit "Sorry, I did not understand. Please type your command.") ;;
          type_command
      | ServiceDown =>
          speak (lit "Speech recognition service failed. Please type your command.") ;;
          type_command
      | RecognizerFault => type_command
      end
  end.

(** ** Capability handlers *)

(** [not os.getenv(name)]: unset or empty. *)
Definition unset (v : option str) : bool :=
  match v with
  | None => true
  | Some s => falsy s
  end.

(** The string an environment variable holds once it is known to be set. *)
Definition value (v : option str) : str :=
  match v with
  | None => []
  | Some s => s
  end.

Definition EMAIL_USER : str := lit "EMAIL_USER".
Definition EMAIL_PASS : str := lit "EMAIL_PASS".

Definition send_email (to_address subject body : str) : M bool :=
  tell (Invoked (H_send_email to_address subject body)) ;;
  getenv <- ask environ ;;
  let email_user := getenv EMAIL_USER in
  let email_pass := getenv EMAIL_PASS in
  if unset email_user || unset email_pass
  then
    speak (lit "Email credentials are not configured. Please set EMAIL_USER and EMAIL_PASS environment variables.") ;;
    ret false
  else
    let user := value email_user in
    let message :=
      lit "From: " ++ user ++ [LF] ++ lit "To: " ++ to_address ++ [LF]
      ++ lit "Subject: " ++ subject ++ [LF; LF] ++ body in
    tell (SmtpSession user to_address message) ;;
    fails <- ask smtp_fails ;;
    if fails user to_address message
    then speak (lit "Failed to send the email. Check the log for details.") ;;
         ret false
    else speak (lit "Email sent successfully.") ;;
         ret true.

Definition take_screenshot : M (option str) :=
  tell (Invoked H_take_screenshot) ;;
  shot <- ask pyautogui ;;
  match shot with
  | Some filename =>
      tell (ScreenCaptured filename) ;;
      speak (lit "Screenshot saved to " ++ filename) ;;
      ret (Some filename)
  | None =>
      speak (lit "Unable to take screenshot.") ;;
      ret None
  end.

Definition search_in_chrome (query : str) : M unit :=
  tell (Invoked (H_search_in_chrome query)) ;;
  if falsy query then speak (lit "No search query provided.")
  else
    speak (lit "Searching for " ++ query) ;;
    let url := lit "https://www.google.com/search?q=" ++ query in
    tell (BrowserTab url) ;;
    fails <- ask browser_fails ;;
    if fails url then speak (lit "Unable to open the web browser.")
    else ret tt.

Definition wiki_lookup (term : str) (sentences : nat) : M unit :=
  tell (Invoked (H_wiki_lookup term sentences)) ;;
  if falsy term then speak (lit "No search term provided for Wikipedia.")
  else
    speak (lit "Searching Wikipedia for " ++ term) ;;
    tell (WikiQueried term sentences) ;;
    summary <- ask wikipedia ;;
    match summary term sentences with
    | Summary s => speak s
    | DisambiguationError =>
        speak (lit "The term is ambiguous. Please be more specific.")
    | PageError => speak (lit "No Wikipedia page found for that term.")
    | WikiFault => speak (lit "An error occurred while searching Wikipedia.")
    end.

Definition play_song (song_name : str) : M unit :=
  tell (Invoked (H_play_song song_name)) ;;
  if falsy song_name then speak (lit "No song specified.")
  else
    speak (lit "Playing " ++ song_name ++ lit " on YouTube.") ;;
    tell (YouTubeStarted song_name) ;;
    fails <- ask youtube_fails ;;
    if fails song_name then speak (lit "Unable to play the song.")
    else ret tt.

Definition data_txt : str := lit "data.txt".

(** [with open(filename, "w") as f: f.write(note)]; [false] when
    opening or writing raises, and the file is then taken to be as it
    was. *)
Definition write_text (filename note : str) : M bool :=
  fun w =>
    if write_fails (env w) filename then (Ret false, w)
    else (Ret true, store filename (encode_newlines (os (env w)) note) w).

(** [with open(filename, "r") as f: f.read()]; [None] when opening or
    reading raises. *)
Definition read_text (filename : str) : M (option str) :=
  fun w =>
    if read_fails (env w) filename then (Ret None, w)
    else match files w filename with
         | Some stored => (Ret (Some (decode_newlines stored)), w)
         | None => (Ret None, w)
         end.

Definition exists_file (filename : str) : M bool :=
  fun w => (Ret (match files w filename with Some _ => true | None => false end), w).

Definition remember_to_file (note filename : str) : M unit :=
  tell (Invoked (H_remember_to_file note filename)) ;;
  written <- write_text filename note ;;
  if written then speak (lit "I will remember that.")
  else speak (lit "Unable to save the note.").

Definition read_memory (filename : str) : M unit :=
  tell (Invoked (H_read_memory filename)) ;;
  present <- exists_file filename ;;
  if negb present then speak (lit "I have nothing saved yet.")
  else
    r <- read_text filename ;;
    match r with
    | Some raw =>
        let content := strip raw in
        if falsy content then speak (lit "The memory file is empty.")
        else
          speak (lit "You asked me to remember the following:") ;;
          speak content
    | None => speak (lit "Unable to read the memory file.")
    end.

(** ** Command dispatch *)

Definition exit_words : list str :=
  [lit "exit"; lit "quit"; lit "bye"; lit "goodbye"].

(** The keywords tested before the two memory branches are reached, in
    the order of the tests. *)
Definition earlier_triggers : list str :=
  exit_words
  ++ [lit "time"; lit "date"; lit "your name"; lit "what is your name";
      lit "how can you help"; lit "how can you help me"; lit "wikipedia";
      lit "search"; lit "search in chrome"; lit "google";
      lit "send email"; lit "email"; lit "screenshot"; lit "screen shot";
      lit "cpu"; lit "battery"].

(** Every keyword [parse_and_execute] tests for. *)
Definition triggers : list str :=
  earlier_triggers
  ++ [lit "remember that"; lit "remember"; lit "do you know anything";
      lit "what do you remember"; lit "what did i tell you";
      lit "play"; lit "play song"; lit "joke"].

(** Slot extraction: the trigger words are replaced by nothing, the
    rest is trimmed. *)
Definition wiki_term (query : str) : str :=
  strip (replace (lit "wikipedia") [] query).

Definition search_terms (query : str) : str :=
  strip (replace (lit "google") []
          (replace (lit "search") []
            (replace (lit "search in chrome") [] query))).

Definition song_title (query : str) : str :=
  strip (replace (lit "play song") [] (replace (lit "play") [] query)).

(** The test the e-mail branch makes on the subject it was given. *)
Definition looks_like_address (subject : str) : bool :=
  contains (lit "@") subject && contains (lit ".") subject
  && negb (contains (lit " ") subject).

Definition parse_and_execute (query : str) : M bool :=
  if falsy query then ret true
  else if any_in exit_words query then
    speak (lit "Goodbye. Have a nice day.") ;;
    ret false
  else if contains (lit "time") query then
    tell_time ;;
    ret true
  else if contains (lit "date") query then
    tell_date ;;
    ret true
  else if contains (lit "your name") query
          || contains (lit "what is your name") query then
    speak (lit "My name is Alpha.") ;;
    ret true
  else if contains (lit "how can you help") query
          || contains (lit "how can you help me") query then
    speak (lit "I can tell time, take screenshots, send email, search the web, play songs and more.") ;;
    ret true
  else if contains (lit "wikipedia") query then
    let term := wiki_term query in
    term <- (if falsy term
             then speak (lit "What would you like me to search on Wikipedia?") ;;
                  take_command
             else ret term) ;;
    wiki_lookup term 2 ;;
    ret true
  else if contains (lit "search") query
          || contains (lit "search in chrome") query
          || contains (lit "google") query then
    let to_search := search_terms query in
    to_search <- (if falsy to_search
                  then speak (lit "What should I search for?") ;;
                       take_command
                  else ret to_search) ;;
    search_in_chrome to_search ;;
    ret true
  else if contains (lit "send email") query
          || contains (lit "email") query then
    speak (lit "What should be the subject?") ;;
    subject <- take_command ;;
    speak (lit "What should I say in the email?") ;;
    body <- take_command ;;
    (if looks_like_address subject
     then send_email subject (lit "No subject") body
     else
       speak (lit "Who should I send it to? Please type the email address.") ;;
       typed <- input (lit "Recipient email: ") ;;
       send_email (strip typed) subject body) ;;
    ret true
  else if contains (lit "screenshot") query
          || contains (lit "screen shot") query then
    take_screenshot ;;
    ret true
  else if contains (lit "cpu") query || contains (lit "battery") query then
    cpu_status ;;
    ret true
  else if contains (lit "remember that") query
          || contains (lit "remember") query then
    speak (lit "What should I remember?") ;;
    note <- take_command ;;
    remember_to_file note data_txt ;;
    ret true
  else if contains (lit "do you know anything") query
          || contains (lit "what do you remember") query
          || contains (lit "what did i tell you") query then
    read_memory data_txt ;;
    ret true
  else if contains (lit "play") query
          || contains (lit "play song") query then
    let song := song_title query in
    song <- (if falsy song
             then speak (lit "Which song should I play?") ;;
                  take_command
             else ret song) ;;
    play_song song ;;
    ret true
  else if contains (lit "joke") query then
    tell_joke ;;
    ret true
  else
    speak (lit "I did not understand exactly. I will search the web for you.") ;;
    search_in_chrome query ;;
    ret true.

(** ** The branches of [parse_and_execute], named

    The source has one chain of tests.  [match_intent] names the branch
    the chain takes for a non-empty query and [execute] is the body of
    that branch; [parse_and_execute_dispatch] below shows that the two
    together are [parse_and_execute]. *)

Inductive Intent :=
| Exit | TellTime | TellDate | Identify | Help | WikiLookup | WebSearch
| SendEmail | Screenshot | SystemStatus | Remember | RecallMemory
| PlaySong | Joke | FallbackSearch.

Definition match_intent (query : str) : Intent :=
  if any_in exit_words query then Exit
  else if contains (lit "time") query then TellTime
  else if contains (lit "date") query then TellDate
  else if contains (lit "your name") query
          || contains (lit "what is your name") query then Identify
  else if contains (lit "how can you help") query
          || contains (lit "how can you help me") query then Help
  else if contains (lit "wikipedia") query then WikiLookup
  else if contains (lit "search") query
          || contains (lit "search in chrome") query
          || contains (lit "google") query then WebSearch
  else if contains (lit "send email") query
          || contains (lit "email") query then SendEmail
  else if contains (lit "screenshot") query
          || contains (lit "screen shot") query then Screenshot
  else if contains (lit "cpu") query || contains (lit "battery") query
       then SystemStatus
  else if contains (lit "remember that") query
          || contains (lit "remember") query then Remember
  else if contains (lit "do you know anything") query
          || contains (lit "what do you remember") query
          || contains (lit "what did i tell you") query then RecallMemory
  else if contains (lit "play") query
          || contains (lit "play song") query then PlaySong
  else if contains (lit "joke") query then Joke
  else FallbackSearch.

(** After an empty extraction: one prompt, one more utterance. *)
Definition clarify (slot prompt : str) : M str :=
  if falsy slot then speak prompt ;; take_command else ret slot.

Definition execute (i : Intent) (query : str) : M bool :=
  match i with
  | Exit => speak (lit "Goodbye. Have a nice day.") ;; ret false
  | TellTime => tell_time ;; ret true
  | TellDate => tell_date ;; ret true
  | Identify => speak (lit "My name is Alpha.") ;; ret true
  | Help =>
      speak (lit "I can tell time, take screenshots, send email, search the web, play songs and more.") ;;
      ret true
  | WikiLookup =>
      term <- clarify (wiki_term query)
                (lit "What would you like me to search on Wikipedia?") ;;
      wiki_lookup term 2 ;;
      ret true
  | WebSearch =>
      to_search <- clarify (search_terms query)
                     (lit "What should I search for?") ;;
      search_in_chrome to_search ;;
      ret true
  | SendEmail =>
      speak (lit "What should be the subject?") ;;
      subject <- take_command ;;
      speak (lit "What should I say in the email?") ;;
      body <- take_command ;;
      (if looks_like_address subject
       then send_email subject (lit "No subject") body
       else
         speak (lit "Who should I send it to? Please type the email address.") ;;
         typed <- input (lit "Recipient email: ") ;;
         send_email (strip typed) subject body) ;;
      ret true
  | Screenshot => take_screenshot ;; ret true
  | SystemStatus => cpu_status ;; ret true
  | Remember =>
      speak (lit "What should I remember?") ;;
      note <- take_command ;;
      remember_to_file note data_txt ;;
      ret true
  | RecallMemory => read_memory data_txt ;; ret true
  | PlaySong =>
      song <- clarify (song_title query) (lit "Which song should I play?") ;;
      play_song song ;;
      ret true
  | Joke => tell_joke ;; ret true
  | FallbackSearch =>
      speak (lit "I did not understand exactly. I will search the web for you.") ;;
      search_in_chrome query ;;
      ret true
  end.

(** ** The session loop *)

Inductive session := RUNNING | TERMINATED.

(** One pass through the body of [while keep_running]. *)
Definition turn : M bool :=
  query <- take_command ;;
  parse_and_execute query.

(** At most [n] passes of the loop, from state [s]; the result is the
    state the loop is in afterwards. *)
Fixpoint session_loop (n : nat) (s : session) : M session :=
  match n, s with
  | _, TERMINATED => ret TERMINATED
  | O, RUNNING => ret RUNNING
  | S n', RUNNING =>
      keep_running <- turn ;;
      session_loop n' (if keep_running then RUNNING else TERMINATED)
  end.

(** [main()], its loop cut off after [n] passes. *)
Definition main (n : nat) : M session :=
  speak (lit "Starting Alpha Assistant.") ;;
  wishme ;;
  try_except (session_loop n RUNNING)
    (fun e =>
       if is_Exception e
       then speak (lit "An error occurred. Exiting.") ;; ret TERMINATED
       else speak (lit "Shutting down. Goodbye.") ;; ret TERMINATED).

(** ** Sample worlds, for evaluating the program *)

Module Sample.

Definition no_files : str -> option str := fun _ => None.

(** A laptop at nine in the morning, no credentials configured, every
    collaborator working. *)
Definition laptop : Env :=
  mkEnv Posix (fun _ => None) 9 (lit "09:00:00 AM")
    (lit "Monday, 01 January 2024") (Some (lit "A joke."))
    (fun _ _ => PageError) (fun _ => false) (fun _ => false)
    (fun _ _ _ => false) (Some (lit "3.0", None)) (Some (lit "shot.png"))
    (fun _ => false) (fun _ => false).

(** The same laptop with both credentials set. *)
Definition mailer : Env :=
  mkEnv Posix
    (fun name => if str_eqb name EMAIL_USER then Some (lit "me@example.com")
                 else if str_eqb name EMAIL_PASS then Some (lit "secret")
                 else None)
    9 (lit "09:00:00 AM") (lit "Monday, 01 January 2024")
    (Some (lit "A joke.")) (fun _ _ => PageError) (fun _ => false)
    (fun _ => false) (fun _ _ _ => false) (Some (lit "3.0", None))
    (Some (lit "shot.png")) (fun _ => false) (fun _ => false).

(** A fresh session in which the microphone will deliver [v] and the
    keyboard [k]. *)
Definition session_with (e : Env) (v : list voice_outcome)
    (k : list typed_input) : World :=
  mkWorld e v k no_files [].

Definition TAB : ascii := ascii_of_nat 9.

End Sample.

(** ** Phrases and conditions the statements below refer to *)

Definition goodbye : str := lit "Goodbye. Have a nice day.".

Definition not_configured : str :=
  lit "Email credentials are not configured. Please set EMAIL_USER and EMAIL_PASS environment variables.".

Definition did_not_understand : str :=
  lit "I did not understand exactly. I will search the web for you.".

(** The address [search_in_chrome] opens. *)
Definition search_url (query : str) : str :=
  lit "https://www.google.com/search?q=" ++ query.

(** An environment variable that is unset or holds the empty string. *)
Definition absent_or_empty (v : option str) : Prop :=
  v = None \/ v = Some [].

(** The three intents that take a slot out of the utterance: how the
    slot is extracted, what is asked when the extraction is empty, which
    handler receives the slot, and what that handler says to an empty
    one. *)
Record slot_rule := mkRule {
  extract : str -> str;
  prompt : str;
  handler : str -> M unit;
  entered : str -> handler_call;
  refusal : str
}.

Definition slot_rule_of (i : Intent) : option slot_rule :=
  match i with
  | WikiLookup =>
      Some (mkRule wiki_term
              (lit "What would you like me to search on Wikipedia?")
              (fun term => wiki_lookup term 2)
              (fun term => H_wiki_lookup term 2)
              (lit "No search term provided for Wikipedia."))
  | WebSearch =>
      Some (mkRule search_terms (lit "What should I search for?")
              search_in_chrome H_search_in_chrome
              (lit "No search query provided."))
  | PlaySong =>
      Some (mkRule song_title (lit "Which song should I play?")
              play_song H_play_song (lit "No song specified."))
  | _ => None
  end.

Definition ask_subject : str := lit "What should be the subject?".
Definition ask_body : str := lit "What should I say in the email?".
Definition ask_recipient : str :=
  lit "Who should I send it to? Please type the email address.".
Definition ask_note : str := lit "What should I remember?".

(** The microphone opens and listening ends in audio or in a timeout. *)
Definition microphone_works (w : World) : bool :=
  match next_voice w with
  | MicUnavailable | ListenFault => false
  | Silence | Heard _ => true
  end.

(** [take_command] goes on to the keyboard: anything but a transcript. *)
Definition typed_path (w : World) : bool :=
  match next_voice w with
  | Heard (Transcript _) => false
  | _ => true
  end.

Definition line_waiting (w : World) : bool :=
  match keyboard w with
  | Line _ :: _ => true
  | _ => false
  end.

(** ** The tests as a table, and what a session leaves to be read *)

(** The tests of [parse_and_execute] in the order of the source: the
    keywords each test looks for and the branch it guards. *)
Definition intent_table : list (list str * Intent) :=
  [ (exit_words, Exit);
    ([lit "time"], TellTime);
    ([lit "date"], TellDate);
    ([lit "your name"; lit "what is your name"], Identify);
    ([lit "how can you help"; lit "how can you help me"], Help);
    ([lit "wikipedia"], WikiLookup);
    ([lit "search"; lit "search in chrome"; lit "google"], WebSearch);
    ([lit "send email"; lit "email"], SendEmail);
    ([lit "screenshot"; lit "screen shot"], Screenshot);
    ([lit "cpu"; lit "battery"], SystemStatus);
    ([lit "remember that"; lit "remember"], Remember);
    ([lit "do you know anything"; lit "what do you remember";
      lit "what did i tell you"], RecallMemory);
    ([lit "play"; lit "play song"], PlaySong);
    ([lit "joke"], Joke) ].

(** The same table without the keywords that contain another keyword of
    their own or of an earlier row. *)
Definition short_table : list (list str * Intent) :=
  [ ([lit "exit"; lit "quit"; lit "bye"], Exit);
    ([lit "time"], TellTime);
    ([lit "date"], TellDate);
    ([lit "your name"], Identify);
    ([lit "how can you help"], Help);
    ([lit "wikipedia"], WikiLookup);
    ([lit "search"; lit "google"], WebSearch);
    ([lit "email"], SendEmail);
    ([lit "screenshot"; lit "screen shot"], Screenshot);
    ([lit "cpu"; lit "battery"], SystemStatus);
    ([lit "remember"], Remember);
    ([lit "do you know anything"; lit "what did i tell you"], RecallMemory);
    ([lit "play"], PlaySong);
    ([lit "joke"], Joke) ].

(** The branch of the first row one of whose keywords occurs. *)
Fixpoint first_match (table : list (list str * Intent)) (query : str)
    : Intent :=
  match table with
  | [] => FallbackSearch
  | (keywords, i) :: rest =>
      if any_in keywords query then i else first_match rest query
  end.

(** Running the handler a recorded call names, its result dropped. *)
Definition perform (h : handler_call) : M unit :=
  match h with
  | H_tell_time => tell_time
  | H_tell_date => tell_date
  | H_tell_joke => tell_joke
  | H_cpu_status => cpu_status
  | H_send_email to_address subject body =>
      send_email to_address subject body ;; ret tt
  | H_take_screenshot => take_screenshot ;; ret tt
  | H_search_in_chrome query => search_in_chrome query
  | H_wiki_lookup term sentences => wiki_lookup term sentences
  | H_play_song song_name => play_song song_name
  | H_remember_to_file note filename => remember_to_file note filename
  | H_read_memory filename => read_memory filename
  end.

(** Calls that leave the program: a Wikipedia query, a browser tab, a
    YouTube playback, an SMTP session, a screen capture. *)
Fixpoint external_calls (t : list event) : nat :=
  match t with
  | [] => 0
  | WikiQueried _ _ :: t' => S (external_calls t')
  | BrowserTab _ :: t' => S (external_calls t')
  | YouTubeStarted _ :: t' => S (external_calls t')
  | SmtpSession _ _ _ :: t' => S (external_calls t')
  | ScreenCaptured _ :: t' => S (external_calls t')
  | _ :: t' => external_calls t'
  end.

(** How much scripted input is still to come. *)
Definition pending (w : World) : nat :=
  List.length (voice w) + List.length (keyboard w).

(** A line of whitespace only. *)
Definition blank (s : str) : bool := forallb isspace s.

(** The greeting [wishme] chooses for an hour of the day. *)
Definition greeting (hour : nat) : str :=
  if hour <? 6 then lit "Good night."
  else if hour <? 12 then lit "Good morning."
  else if hour <? 18 then lit "Good afternoon."
  else if hour <? 24 then lit "Good evening."
  else lit "Good night.".

Definition error_exit : str := lit "An error occurred. Exiting.".
Definition shutting_down : str := lit "Shutting down. Goodbye.".

(** What [main] says when its loop is left by an exception. *)
Definition closing (e : exn) : str :=
  if is_Exception e then error_exit else shutting_down.

(** The message [send_email] hands to the server. *)
Definition email_message (user to_address subject body : str) : str :=
  lit "From: " ++ user ++ [LF] ++ lit "To: " ++ to_address ++ [LF]
  ++ lit "Subject: " ++ subject ++ [LF; LF] ++ body.

(** A program that takes input away at most: whatever it returns or
    raises, no more input is pending afterwards than before. *)
Definition never_adds_input {A : Type} (c : M A) : Prop :=
  forall w : World, pending (snd (c w)) <= pending w.


(** The world once [main] has announced itself and greeted. *)
Definition greeted (w : World) : World :=
  snd ((speak (lit "Starting Alpha Assistant.") ;; wishme) w).

Definition email_sent : str := lit "Email sent successfully.".
Definition email_failed : str :=
  lit "Failed to send the email. Check the log for details.".

(** * Facts about the string operations *)

Section StringFacts.

Lemma startswith_app (p r : str) : startswith p (p ++ r) = true.
Proof.
  induction p as [|a p IH]; simpl; [reflexivity|].
  now rewrite Ascii.eqb_refl.
Qed.

Lemma startswith_split (p s : str) :
  startswith p s = true -> exists r, s = p ++ r.
Proof.
  revert s; induction p as [|a p IH]; intros s H.
  - now exists s.
  - destruct s as [|b s]; simpl in H; [discriminate|].
    apply andb_prop in H as [Hab Hp].
    apply Ascii.eqb_eq in Hab; subst b.
    destruct (IH _ Hp) as [r ->].
    now exists r.
Qed.

Lemma contains_split (sub s : str) :
  contains sub s = true -> exists l r, s = l ++ sub ++ r.
Proof.
  induction s as [|c s IH]; simpl; intros H.
  - rewrite orb_false_r in H.
    destruct (startswith_split _ _ H) as [r Hr].
    now exists [], r.
  - apply orb_prop in H as [H|H].
    + destruct (startswith_split _ _ H) as [r Hr].
      now exists [], r.
    + destruct (IH H) as (l & r & ->).
      now exists (c :: l), r.
Qed.

Lemma startswith_contains (p s : str) :
  startswith p s = true -> contains p s = true.
Proof.
  intros H; destruct s; simpl; now rewrite H.
Qed.

Lemma contains_app (l sub r : str) : contains sub (l ++ sub ++ r) = true.
Proof.
  induction l as [|c l IH]; simpl.
  - apply startswith_contains, startswith_app.
  - rewrite IH. apply orb_true_r.
Qed.

(** A substring of a substring is a substring. *)
Lemma contains_trans (a b s : str) :
  contains a b = true -> contains b s = true -> contains a s = true.
Proof.
  intros Hab Hbs.
  destruct (contains_split _ _ Hab) as (l1 & r1 & ->).
  destruct (contains_split _ _ Hbs) as (l2 & r2 & ->).
  replace (l2 ++ (l1 ++ a ++ r1) ++ r2)
    with ((l2 ++ l1) ++ a ++ (r1 ++ r2))
    by (now rewrite <- !app_assoc).
  apply contains_app.
Qed.

Lemma contains_absent (a b s : str) :
  contains a b = true -> contains a s = false -> contains b s = false.
Proof.
  intros Hab Has.
  destruct (contains b s) eqn:E; [|reflexivity].
  now rewrite (contains_trans _ _ _ Hab E) in Has.
Qed.

Lemma contains_nonempty (sub s : str) :
  falsy sub = false -> contains sub s = true -> falsy s = false.
Proof.
  destruct sub; [discriminate|].
  destruct s; [discriminate|reflexivity].
Qed.

(** Where the pattern does not occur, [replace] changes nothing. *)
Lemma replace_from_absent (old new s : str) :
  contains old s = false -> replace_from old new 0 s = s.
Proof.
  induction s as [|c s IH]; [reflexivity|].
  cbn [contains replace_from]; intros H.
  apply orb_false_elim in H as [H1 H2].
  now rewrite H1, (IH H2).
Qed.

Lemma replace_absent (old new s : str) :
  falsy old = false -> contains old s = false -> replace old new s = s.
Proof.
  destruct old; [discriminate|].
  intros _; apply replace_from_absent.
Qed.

Lemma lstrip_idem (s : str) : lstrip (lstrip s) = lstrip s.
Proof.
  induction s as [|c s IH]; [reflexivity|].
  simpl; destruct (isspace c) eqn:E; [exact IH|].
  simpl; now rewrite E.
Qed.

Lemma rstrip_cons (c : ascii) (s : str) :
  isspace c = false -> rstrip (c :: s) = c :: rstrip s.
Proof. intros E; simpl; now rewrite E. Qed.

Lemma rstrip_idem (s : str) : rstrip (rstrip s) = rstrip s.
Proof.
  induction s as [|c s IH]; [reflexivity|].
  simpl; destruct (isspace c) eqn:E; simpl.
  - destruct (rstrip s) as [|d r] eqn:R; simpl; [reflexivity|].
    rewrite E; simpl in *.
    destruct (isspace d && falsy (rstrip r)) eqn:F; [discriminate|].
    simpl; congruence.
  - rewrite E; simpl; congruence.
Qed.

Lemma rstrip_lstrip (s : str) : rstrip (lstrip s) = lstrip (rstrip s).
Proof.
  induction s as [|c s IH]; [reflexivity|].
  destruct (isspace c) eqn:E.
  - cbn [lstrip rstrip]; rewrite E, IH; simpl.
    destruct (rstrip s) as [|d r]; simpl; [reflexivity|].
    now rewrite E.
  - cbn [lstrip]; rewrite E, (rstrip_cons c s E).
    cbn [lstrip]; now rewrite E.
Qed.

(** Trimming a trimmed string changes nothing. *)
Lemma strip_idem (s : str) : strip (strip s) = strip s.
Proof.
  unfold strip.
  now rewrite rstrip_lstrip, lstrip_idem, rstrip_idem.
Qed.

Lemma isspace_lower_char (c : ascii) : isspace (lower_char c) = isspace c.
Proof. destruct c as [[] [] [] [] [] [] [] []]; reflexivity. Qed.

Lemma lower_char_idem (c : ascii) : lower_char (lower_char c) = lower_char c.
Proof. destruct c as [[] [] [] [] [] [] [] []]; reflexivity. Qed.

Lemma lower_idem (s : str) : lower (lower s) = lower s.
Proof.
  unfold lower; rewrite map_map.
  apply map_ext; exact lower_char_idem.
Qed.

Lemma lstrip_lower (s : str) : lstrip (lower s) = lower (lstrip s).
Proof.
  induction s as [|c s IH]; [reflexivity|].
  simpl; rewrite isspace_lower_char.
  destruct (isspace c); [exact IH|reflexivity].
Qed.

Lemma rstrip_lower (s : str) : rstrip (lower s) = lower (rstrip s).
Proof.
  induction s as [|c s IH]; [reflexivity|].
  simpl; rewrite isspace_lower_char.
  fold (lower s); rewrite IH.
  destruct (rstrip s); destruct (isspace c); reflexivity.
Qed.

Lemma strip_lower (s : str) : strip (lower s) = lower (strip s).
Proof. unfold strip; now rewrite rstrip_lower, lstrip_lower. Qed.

(** What [input().strip().lower()] returns is lower-cased and trimmed. *)
Lemma typed_normalized (l : str) :
  lower (lower (strip l)) = lower (strip l)
  /\ strip (lower (strip l)) = lower (strip l).
Proof.
  split; [apply lower_idem|].
  now rewrite strip_lower, strip_idem.
Qed.

End StringFacts.

(** * Facts about the program *)

Section ProgramFacts.

Lemma speak_says (text : str) (w : World) :
  falsy text = false -> speak text w = (Ret tt, emit (Spoke text) w).
Proof. unfold speak; now intros ->. Qed.

Lemma invocations_app (t u : list event) :
  invocations (t ++ u) = invocations t ++ invocations u.
Proof.
  induction t as [|e t IH]; [reflexivity|].
  destruct e; simpl; now rewrite IH.
Qed.

Lemma smtp_sessions_app (t u : list event) :
  smtp_sessions (t ++ u) = smtp_sessions t + smtp_sessions u.
Proof.
  induction t as [|e t IH]; [reflexivity|].
  destruct e; simpl; now rewrite IH.
Qed.

(** The chain of tests in [parse_and_execute] is [match_intent]
    followed by [execute]. *)
Lemma parse_and_execute_dispatch (query : str) :
  falsy query = false ->
  parse_and_execute query = execute (match_intent query) query.
Proof.
  intros Hq; unfold parse_and_execute, match_intent; rewrite Hq.
  repeat match goal with
         | |- (if ?b then _ else _) = execute (if ?b then _ else _) _ =>
             destruct b; [reflexivity|]
         end.
  reflexivity.
Qed.

(** Any exit word in the query makes the exit test succeed. *)
Lemma exit_word_found (query : str) :
  contains (lit "exit") query = true \/ contains (lit "quit") query = true
  \/ contains (lit "bye") query = true
  \/ contains (lit "goodbye") query = true ->
  any_in exit_words query = true /\ falsy query = false.
Proof.
  intros H; split.
  - unfold any_in, exit_words; cbn [existsb].
    destruct H as [H|[H|[H|H]]]; rewrite H; now rewrite ?orb_true_r.
  - destruct H as [H|[H|[H|H]]];
      (eapply contains_nonempty; [|exact H]; reflexivity).
Qed.

End ProgramFacts.

(** * The claims *)

(** C1.  An utterance that contains "exit", "quit", "bye" or "goodbye"
    selects Exit whatever else it contains; [parse_and_execute] says
    goodbye, returns [false] and enters no capability handler; and a
    pass of the session loop that resolved this utterance leaves the
    loop TERMINATED, however many passes were still allowed. *)
Theorem exit_phrase_terminates (query : str) (w : World) :
  contains (lit "exit") query = true \/ contains (lit "quit") query = true
  \/ contains (lit "bye") query = true
  \/ contains (lit "goodbye") query = true ->
  match_intent query = Exit
  /\ parse_and_execute query w = (Ret false, emit (Spoke goodbye) w)
  /\ invocations (trace (snd (parse_and_execute query w)))
     = invocations (trace w)
  /\ forall (n : nat) (w0 : World),
       take_command w0 = (Ret query, w) ->
       session_loop (S n) RUNNING w0
       = (Ret TERMINATED, emit (Spoke goodbye) w).
Proof.
  intros H; destruct (exit_word_found query H) as [Hexit Hq].
  assert (Hrun : parse_and_execute query w
                 = (Ret false, emit (Spoke goodbye) w)).
  { unfold parse_and_execute; now rewrite Hq, Hexit. }
  repeat split.
  - unfold match_intent; now rewrite Hexit.
  - exact Hrun.
  - rewrite Hrun; cbn [snd emit trace].
    rewrite invocations_app; cbn; apply app_nil_r.
  - intros n w0 Htake.
    cbn [session_loop]; unfold turn, bind at 1 2.
    rewrite Htake, Hrun.
    destruct n; reflexivity.
Qed.

(** "Goodbye, what TIME is it" is heard: the loop ends although the
    utterance also asks for the time. *)
Lemma exit_phrase_terminates_witness :
  let query := lit "goodbye, what time is it" in
  let w0 := Sample.session_with Sample.laptop
              [Heard (Transcript (lit "Goodbye, what TIME is it"))] [] in
  let w := snd (take_command w0) in
  take_command w0 = (Ret query, w)
  /\ match_intent query = Exit
  /\ parse_and_execute query w = (Ret false, emit (Spoke goodbye) w)
  /\ invocations (trace (snd (parse_and_execute query w)))
     = invocations (trace w)
  /\ session_loop 3 RUNNING w0 = (Ret TERMINATED, emit (Spoke goodbye) w).
Proof.
  intros query w0 w.
  assert (Htake : take_command w0 = (Ret query, w)) by reflexivity.
  assert (Hword : contains (lit "exit") query = true
                  \/ contains (lit "quit") query = true
                  \/ contains (lit "bye") query = true
                  \/ contains (lit "goodbye") query = true)
    by (right; right; left; reflexivity).
  destruct (exit_phrase_terminates query w Hword) as (Hi & Hrun & Hinv & Hloop).
  split; [exact Htake|].
  split; [exact Hi|].
  split; [exact Hrun|].
  split; [exact Hinv|].
  exact (Hloop 2 w0 Htake).
Defined.

(** C7.  The empty utterance is a turn on which nothing happens:
    [parse_and_execute] returns [true] and leaves the world, and with
    it the trace of messages and handler calls, as it found it; a pass
    of the session loop that resolved the empty utterance leaves the
    loop RUNNING. *)
Theorem empty_utterance_noop (w : World) :
  parse_and_execute [] w = (Ret true, w)
  /\ forall w0 : World,
       take_command w0 = (Ret [], w) ->
       session_loop 1 RUNNING w0 = (Ret RUNNING, w).
Proof.
  split; [reflexivity|].
  intros w0 Htake.
  cbn [session_loop]; unfold turn, bind at 1 2.
  now rewrite Htake.
Qed.

(** Nobody speaks and an empty line is typed. *)
Lemma empty_utterance_noop_witness :
  let w0 := Sample.session_with Sample.laptop [] [Line []] in
  let w := snd (take_command w0) in
  take_command w0 = (Ret [], w)
  /\ parse_and_execute [] w = (Ret true, w)
  /\ session_loop 1 RUNNING w0 = (Ret RUNNING, w).
Proof.
  intros w0 w.
  assert (Htake : take_command w0 = (Ret [], w)) by reflexivity.
  destruct (empty_utterance_noop w) as [Hrun Hloop].
  split; [exact Htake|].
  split; [exact Hrun|].
  exact (Hloop w0 Htake).
Defined.

(** C8.  When EMAIL_USER or EMAIL_PASS is unset or empty, [send_email]
    speaks the configuration message and returns [false]: it does not
    raise, and it opens no SMTP session. *)
Theorem send_email_unconfigured (to_address subject body : str) (w : World) :
  absent_or_empty (environ (env w) EMAIL_USER)
  \/ absent_or_empty (environ (env w) EMAIL_PASS) ->
  send_email to_address subject body w
  = (Ret false,
     emit (Spoke not_configured)
       (emit (Invoked (H_send_email to_address subject body)) w))
  /\ smtp_sessions (trace (snd (send_email to_address subject body w)))
     = smtp_sessions (trace w).
Proof.
  intros H.
  assert (Hunset : unset (environ (env w) EMAIL_USER)
                   || unset (environ (env w) EMAIL_PASS) = true).
  { destruct H as [[H|H]|[H|H]]; rewrite H; cbn; now rewrite ?orb_true_r. }
  assert (Hrun : send_email to_address subject body w
                 = (Ret false,
                    emit (Spoke not_configured)
                      (emit (Invoked (H_send_email to_address subject body)) w))).
  { unfold send_email, bind, tell, ask; cbn [env emit].
    now rewrite Hunset. }
  split; [exact Hrun|].
  rewrite Hrun; cbn [snd emit trace].
  rewrite !smtp_sessions_app; cbn; lia.
Qed.

(** On the sample laptop neither variable is set. *)
Lemma send_email_unconfigured_witness :
  let w := Sample.session_with Sample.laptop [] [] in
  send_email (lit "a@b.c") (lit "hi") (lit "hello") w
  = (Ret false,
     emit (Spoke not_configured)
       (emit (Invoked (H_send_email (lit "a@b.c") (lit "hi") (lit "hello"))) w))
  /\ smtp_sessions (trace (snd (send_email (lit "a@b.c") (lit "hi")
                                  (lit "hello") w)))
     = smtp_sessions (trace w).
Proof.
  intros w.
  apply (send_email_unconfigured (lit "a@b.c") (lit "hi") (lit "hello") w).
  left; left; reflexivity.
Defined.

(** ** Which branch is taken *)

Section Branches.

Lemma any_in_app (a b : list str) (s : str) :
  any_in (a ++ b) s = any_in a s || any_in b s.
Proof. apply existsb_app. Qed.

Ltac split_orb :=
  repeat match goal with
         | H : _ || _ = false |- _ =>
             apply orb_false_elim in H; destruct H
         end.

(** No keyword tested before the memory branches occurs in the query:
    each of the first ten tests fails. *)
Lemma earlier_tests_fail (query : str) :
  any_in earlier_triggers query = false ->
  any_in exit_words query = false
  /\ contains (lit "time") query = false
  /\ contains (lit "date") query = false
  /\ contains (lit "your name") query
     || contains (lit "what is your name") query = false
  /\ contains (lit "how can you help") query
     || contains (lit "how can you help me") query = false
  /\ contains (lit "wikipedia") query = false
  /\ contains (lit "search") query || contains (lit "search in chrome") query
     || contains (lit "google") query = false
  /\ contains (lit "send email") query || contains (lit "email") query = false
  /\ contains (lit "screenshot") query
     || contains (lit "screen shot") query = false
  /\ contains (lit "cpu") query || contains (lit "battery") query = false.
Proof.
  unfold earlier_triggers; rewrite any_in_app; intros H.
  apply orb_false_elim in H as [Hexit H].
  unfold any_in in H; cbn [existsb] in H; split_orb.
  repeat split;
    repeat match goal with
           | E : ?b = false |- context [?b] => rewrite E
           end; reflexivity.
Qed.

(** The converse, read off the chain of tests. *)
Lemma earlier_tests_pass (query : str) :
  match_intent query = Remember \/ match_intent query = RecallMemory
  \/ match_intent query = PlaySong \/ match_intent query = Joke
  \/ match_intent query = FallbackSearch ->
  any_in earlier_triggers query = false.
Proof.
  unfold earlier_triggers; rewrite any_in_app.
  unfold match_intent.
  repeat match goal with
         | |- (if ?b then _ else _) = _ \/ _ -> ?c || _ = false =>
             destruct b eqn:?;
             [intros [?|[?|[?|[?|?]]]]; discriminate|]
         end.
  intros _.
  unfold any_in; cbn [existsb]; split_orb.
  repeat match goal with
         | E : ?b = false |- context [?b] => rewrite E
         end.
  reflexivity.
Qed.

Lemma remember_in_what_do_you_remember (query : str) :
  contains (lit "what do you remember") query = true ->
  contains (lit "remember") query = true.
Proof. apply contains_trans; reflexivity. Qed.

End Branches.

(** C9, as stated, fails: "remember the time" contains "remember", yet
    the test for "time" comes first and the turn tells the time. *)
Lemma remember_shadowed_by_time :
  let query := lit "remember the time" in
  let w := Sample.session_with Sample.laptop [] [] in
  contains (lit "remember") query = true
  /\ match_intent query = TellTime
  /\ match_intent query <> Remember
  /\ invocations (trace (snd (parse_and_execute query w))) = [H_tell_time].
Proof.
  intros query w.
  split; [reflexivity|].
  split; [reflexivity|].
  split; [discriminate|reflexivity].
Qed.

(** C9, amended.  An utterance that contains "remember" never takes the
    RecallMemory branch, and takes the Remember branch when it holds no
    keyword of an earlier test; "what do you remember" is such an
    utterance.  An utterance that takes the RecallMemory branch contains
    "do you know anything" or "what did i tell you" and neither
    "remember" nor a keyword of an earlier test; both phrases on their
    own do take it. *)
Theorem remember_before_recall (query : str) :
  (contains (lit "remember") query = true ->
   match_intent query <> RecallMemory
   /\ (any_in earlier_triggers query = false ->
       match_intent query = Remember
       /\ parse_and_execute query = execute Remember query))
  /\ (match_intent query = RecallMemory ->
      (contains (lit "do you know anything") query = true
       \/ contains (lit "what did i tell you") query = true)
      /\ contains (lit "remember") query = false
      /\ any_in earlier_triggers query = false)
  /\ match_intent (lit "what do you remember") = Remember
  /\ match_intent (lit "do you know anything") = RecallMemory
  /\ match_intent (lit "what did i tell you") = RecallMemory.
Proof.
  assert (Hrecall :
    match_intent query = RecallMemory ->
    (contains (lit "do you know anything") query = true
     \/ contains (lit "what did i tell you") query = true)
    /\ contains (lit "remember") query = false
    /\ any_in earlier_triggers query = false).
  { intros Hi.
    assert (Hearly : any_in earlier_triggers query = false)
      by (apply earlier_tests_pass; auto).
    destruct (earlier_tests_fail query Hearly)
      as (E1 & E2 & E3 & E4 & E5 & E6 & E7 & E8 & E9 & E10).
    revert Hi; unfold match_intent.
    rewrite E1, E2, E3, E4, E5, E6, E7, E8, E9, E10.
    destruct (contains (lit "remember") query) eqn:Hrem.
    - rewrite orb_true_r; discriminate.
    - rewrite orb_false_r.
      destruct (contains (lit "remember that") query); [discriminate|].
      destruct (contains (lit "what do you remember") query) eqn:Hwdyr.
      + apply remember_in_what_do_you_remember in Hwdyr; congruence.
      + rewrite orb_false_r.
        destruct (contains (lit "do you know anything") query); [auto|].
        destruct (contains (lit "what did i tell you") query); [auto|].
        cbn [orb].
        repeat match goal with
               | |- (if ?b then _ else _) = _ -> _ => destruct b
               end; discriminate. }
  repeat split; try reflexivity; try (apply Hrecall; assumption).
  - intros Hi; destruct (Hrecall Hi) as (_ & Hno & _); congruence.
  - destruct (earlier_tests_fail query H0)
      as (E1 & E2 & E3 & E4 & E5 & E6 & E7 & E8 & E9 & E10).
    unfold match_intent.
    now rewrite E1, E2, E3, E4, E5, E6, E7, E8, E9, E10, H, orb_true_r.
  - assert (Hq : falsy query = false)
      by (eapply contains_nonempty; [|exact H]; reflexivity).
    rewrite (parse_and_execute_dispatch query Hq).
    destruct (earlier_tests_fail query H0)
      as (E1 & E2 & E3 & E4 & E5 & E6 & E7 & E8 & E9 & E10).
    unfold match_intent.
    now rewrite E1, E2, E3, E4, E5, E6, E7, E8, E9, E10, H, orb_true_r.
Qed.

(** "what do you remember" saves a note; "what did i tell you" reads
    the note back. *)
Lemma remember_before_recall_witness :
  let asked := lit "what do you remember" in
  let told := lit "what did i tell you" in
  (contains (lit "remember") asked = true
   /\ any_in earlier_triggers asked = false
   /\ match_intent asked <> RecallMemory
   /\ match_intent asked = Remember
   /\ parse_and_execute asked = execute Remember asked)
  /\ (match_intent told = RecallMemory
      /\ (contains (lit "do you know anything") told = true
          \/ contains (lit "what did i tell you") told = true)
      /\ contains (lit "remember") told = false
      /\ any_in earlier_triggers told = false).
Proof.
  intros asked told.
  assert (Hrem : contains (lit "remember") asked = true) by reflexivity.
  assert (Hearly : any_in earlier_triggers asked = false) by reflexivity.
  assert (Htold : match_intent told = RecallMemory) by reflexivity.
  destruct (remember_before_recall asked) as (Ha & _).
  destruct (Ha Hrem) as (Hnot & Hsave).
  destruct (Hsave Hearly) as (Hi & Hrun).
  destruct (remember_before_recall told) as (_ & Hb & _).
  split.
  - repeat split; assumption.
  - split; [exact Htold|exact (Hb Htold)].
Defined.

(** C3, as stated, fails at the empty utterance: it matches no keyword,
    yet nothing is passed to the web search; the turn does nothing. *)
Lemma empty_utterance_not_searched :
  let w := Sample.session_with Sample.laptop [] [] in
  any_in triggers [] = false
  /\ match_intent [] = FallbackSearch
  /\ parse_and_execute [] w = (Ret true, w)
  /\ invocations (trace (snd (parse_and_execute [] w))) = []
  /\ parse_and_execute [] w <> execute FallbackSearch [] w.
Proof.
  intros w.
  split; [reflexivity|].
  split; [reflexivity|].
  split; [reflexivity|].
  split; [reflexivity|].
  vm_compute; discriminate.
Qed.

Section Fallback.

Lemma no_trigger_no_test (query : str) :
  any_in triggers query = false ->
  any_in earlier_triggers query = false
  /\ contains (lit "remember that") query || contains (lit "remember") query
     = false
  /\ contains (lit "do you know anything") query
     || contains (lit "what do you remember") query
     || contains (lit "what did i tell you") query = false
  /\ contains (lit "play") query || contains (lit "play song") query = false
  /\ contains (lit "joke") query = false.
Proof.
  unfold triggers; rewrite any_in_app; intros H.
  apply orb_false_elim in H as [Hearly H].
  unfold any_in in H; cbn [existsb] in H.
  repeat match goal with
         | H : _ || _ = false |- _ =>
             apply orb_false_elim in H; destruct H
         end.
  repeat split;
    repeat match goal with
           | E : ?b = false |- context [?b] => rewrite E
           end; reflexivity.
Qed.

(** The fallback is taken exactly when no keyword occurs. *)
Lemma fallback_iff_no_trigger (query : str) :
  match_intent query = FallbackSearch <-> any_in triggers query = false.
Proof.
  split.
  - intros Hi.
    assert (Hearly : any_in earlier_triggers query = false)
      by (apply earlier_tests_pass; auto 6).
    unfold triggers; rewrite any_in_app, Hearly; cbn [orb].
    destruct (earlier_tests_fail query Hearly)
      as (E1 & E2 & E3 & E4 & E5 & E6 & E7 & E8 & E9 & E10).
    revert Hi; unfold match_intent.
    rewrite E1, E2, E3, E4, E5, E6, E7, E8, E9, E10.
    unfold any_in; cbn [existsb].
    repeat match goal with
           | |- (if ?b then _ else _) = _ -> _ =>
               destruct b eqn:?; [discriminate|]
           end.
    intros _.
    repeat match goal with
           | H : _ || _ = false |- _ =>
               apply orb_false_elim in H; destruct H
           end.
    repeat match goal with
           | E : ?b = false |- context [?b] => rewrite E
           end.
    reflexivity.
  - intros H.
    destruct (no_trigger_no_test query H) as (Hearly & F1 & F2 & F3 & F4).
    destruct (earlier_tests_fail query Hearly)
      as (E1 & E2 & E3 & E4 & E5 & E6 & E7 & E8 & E9 & E10).
    unfold match_intent.
    now rewrite E1, E2, E3, E4, E5, E6, E7, E8, E9, E10, F1, F2, F3, F4.
Qed.

(** What [search_in_chrome] does with a non-empty query. *)
Lemma search_in_chrome_runs (query : str) (w : World) :
  falsy query = false ->
  exists w' : World,
    search_in_chrome query w = (Ret tt, w')
    /\ invocations (trace w')
       = invocations (trace w) ++ [H_search_in_chrome query]
    /\ In (BrowserTab (search_url query)) (trace w').
Proof.
  intros Hq.
  unfold search_in_chrome, bind, tell, ask, ret; rewrite Hq.
  unfold speak; cbn [lit list_ascii_of_string app falsy].
  unfold tell; cbn [env emit].
  destruct (browser_fails (env w) _) eqn:Hb.
  - eexists; split; [reflexivity|].
    cbn [trace emit]; split.
    + rewrite !invocations_app; cbn; now rewrite !app_nil_r.
    + rewrite !in_app_iff; cbn; auto 8.
  - eexists; split; [reflexivity|].
    cbn [trace emit]; split.
    + rewrite !invocations_app; cbn; now rewrite !app_nil_r.
    + rewrite !in_app_iff; cbn; auto 8.
Qed.

End Fallback.

(** C3, amended.  For every non-empty utterance [parse_and_execute] runs
    the one branch [match_intent] names.  A non-empty utterance in which
    no keyword occurs takes the fallback: the turn returns [true], the
    only handler entered is [search_in_chrome], with the whole utterance
    as its query, and the browser is sent to the search for it. *)
Theorem fallback_search (query : str) (w : World) :
  falsy query = false ->
  parse_and_execute query w = execute (match_intent query) query w
  /\ (any_in triggers query = false ->
      match_intent query = FallbackSearch
      /\ exists w' : World,
           parse_and_execute query w = (Ret true, w')
           /\ invocations (trace w')
              = invocations (trace w) ++ [H_search_in_chrome query]
           /\ In (BrowserTab (search_url query)) (trace w')).
Proof.
  intros Hq; split.
  - now rewrite (parse_and_execute_dispatch query Hq).
  - intros Hnone.
    assert (Hi : match_intent query = FallbackSearch)
      by (now apply fallback_iff_no_trigger).
    split; [exact Hi|].
    rewrite (parse_and_execute_dispatch query Hq), Hi.
    destruct (search_in_chrome_runs query
                (emit (Spoke did_not_understand) w) Hq)
      as (w' & Hrun & Hinv & Htab).
    exists w'; split.
    + cbn [execute]; unfold bind at 1 2.
      fold did_not_understand.
      rewrite (speak_says did_not_understand w eq_refl).
      now rewrite Hrun.
    + split; [|exact Htab].
      rewrite Hinv; cbn [trace emit].
      rewrite invocations_app; cbn; now rewrite app_nil_r.
Qed.

(** "tell me about tides" holds no keyword. *)
Lemma fallback_search_witness :
  let query := lit "tell me about tides" in
  let w := Sample.session_with Sample.laptop [] [] in
  falsy query = false
  /\ any_in triggers query = false
  /\ parse_and_execute query w = execute (match_intent query) query w
  /\ match_intent query = FallbackSearch
  /\ exists w' : World,
       parse_and_execute query w = (Ret true, w')
       /\ invocations (trace w')
          = invocations (trace w) ++ [H_search_in_chrome query]
       /\ In (BrowserTab (search_url query)) (trace w').
Proof.
  intros query w.
  assert (Hq : falsy query = false) by reflexivity.
  assert (Hnone : any_in triggers query = false) by reflexivity.
  destruct (fallback_search query w Hq) as (Hrun & Hfall).
  destruct (Hfall Hnone) as (Hi & Hsearch).
  split; [exact Hq|].
  split; [exact Hnone|].
  split; [exact Hrun|].
  split; [exact Hi|exact Hsearch].
Defined.

(** ** Slot extraction *)

(** C6, as stated, fails: one pass of [replace] can bring the halves of
    a keyword together, and a second extraction then removes it. *)
Lemma extraction_not_idempotent :
  (wiki_term (lit "wikiwikipediapedia") = lit "wikipedia"
   /\ wiki_term (wiki_term (lit "wikiwikipediapedia")) = [])
  /\ (search_terms (lit "seasearchrch") = lit "search"
      /\ search_terms (search_terms (lit "seasearchrch")) = [])
  /\ (song_title (lit "plplayay imagine") = lit "play imagine"
      /\ song_title (song_title (lit "plplayay imagine")) = lit "imagine")
  /\ wiki_term (wiki_term (lit "wikiwikipediapedia"))
     <> wiki_term (lit "wikiwikipediapedia").
Proof.
  repeat split; try reflexivity.
  vm_compute; discriminate.
Qed.

(** C6, amended.  Extraction is idempotent on every utterance whose
    extracted value holds no trigger keyword of its intent any more:
    "wikipedia" for the Wikipedia term, "search" and "google" for the
    search terms, "play" for the song title. *)
Theorem extraction_idempotent_when_clean (query : str) :
  (contains (lit "wikipedia") (wiki_term query) = false ->
   wiki_term (wiki_term query) = wiki_term query)
  /\ (contains (lit "search") (search_terms query) = false ->
      contains (lit "google") (search_terms query) = false ->
      search_terms (search_terms query) = search_terms query)
  /\ (contains (lit "play") (song_title query) = false ->
      song_title (song_title query) = song_title query).
Proof.
  split; [|split].
  - intros H; unfold wiki_term at 1.
    rewrite (replace_absent (lit "wikipedia") [] _ eq_refl H).
    apply strip_idem.
  - intros Hs Hg; unfold search_terms at 1.
    rewrite (replace_absent (lit "search in chrome") [] _ eq_refl
               (contains_absent (lit "search") (lit "search in chrome") _
                  eq_refl Hs)).
    rewrite (replace_absent (lit "search") [] _ eq_refl Hs).
    rewrite (replace_absent (lit "google") [] _ eq_refl Hg).
    apply strip_idem.
  - intros H; unfold song_title at 1.
    rewrite (replace_absent (lit "play") [] _ eq_refl H).
    rewrite (replace_absent (lit "play song") [] _ eq_refl
               (contains_absent (lit "play") (lit "play song") _ eq_refl H)).
    apply strip_idem.
Qed.

(** "wikipedia alan turing", "search for tides" and "play imagine". *)
Lemma extraction_idempotent_when_clean_witness :
  (contains (lit "wikipedia") (wiki_term (lit "wikipedia alan turing"))
   = false
   /\ wiki_term (wiki_term (lit "wikipedia alan turing"))
      = wiki_term (lit "wikipedia alan turing"))
  /\ (contains (lit "search") (search_terms (lit "search for tides")) = false
      /\ contains (lit "google") (search_terms (lit "search for tides"))
         = false
      /\ search_terms (search_terms (lit "search for tides"))
         = search_terms (lit "search for tides"))
  /\ (contains (lit "play") (song_title (lit "play imagine")) = false
      /\ song_title (song_title (lit "play imagine"))
         = song_title (lit "play imagine")).
Proof.
  destruct (extraction_idempotent_when_clean (lit "wikipedia alan turing"))
    as (Hw & _).
  destruct (extraction_idempotent_when_clean (lit "search for tides"))
    as (_ & Hs & _).
  destruct (extraction_idempotent_when_clean (lit "play imagine"))
    as (_ & _ & Hp).
  split; [|split].
  - split; [reflexivity|exact (Hw eq_refl)].
  - split; [reflexivity|].
    split; [reflexivity|exact (Hs eq_refl eq_refl)].
  - split; [reflexivity|exact (Hp eq_refl)].
Defined.

(** ** Slots and handlers *)

Section Slots.

Ltac calls :=
  cbn [trace emit]; rewrite ?invocations_app; cbn [invocations app];
  rewrite ?app_nil_r, <- ?app_assoc; reflexivity.

(** Each slot handler records its entry, with the slot it was given,
    and returns. *)
Lemma slot_handler_enters (i : Intent) (rule : slot_rule) (slot : str)
    (w : World) :
  slot_rule_of i = Some rule ->
  exists w' : World,
    handler rule slot w = (Ret tt, w')
    /\ invocations (trace w')
       = invocations (trace w) ++ [entered rule slot].
Proof.
  intros H; destruct i; try discriminate; injection H as <-;
    cbn [handler entered].
  - unfold wiki_lookup, bind, tell, ask, ret.
    destruct slot as [|c slot]; cbn [falsy].
    + eexists; split; [reflexivity|calls].
    + unfold speak; cbn [lit list_ascii_of_string app falsy].
      unfold tell; cbn [env emit].
      destruct (wikipedia (env w) (c :: slot) 2) as [[|d s]| | |];
        cbn [falsy]; eexists; (split; [reflexivity|calls]).
  - unfold search_in_chrome, bind, tell, ask, ret.
    destruct slot as [|c slot]; cbn [falsy].
    + eexists; split; [reflexivity|calls].
    + unfold speak; cbn [lit list_ascii_of_string app falsy].
      unfold tell; cbn [env emit].
      destruct (browser_fails (env w) _);
        eexists; (split; [reflexivity|calls]).
  - unfold play_song, bind, tell, ask, ret.
    destruct slot as [|c slot]; cbn [falsy].
    + eexists; split; [reflexivity|calls].
    + unfold speak; cbn [lit list_ascii_of_string app falsy].
      unfold tell; cbn [env emit].
      destruct (youtube_fails (env w) _);
        eexists; (split; [reflexivity|calls]).
Qed.

(** Given an empty slot, a slot handler only says so. *)
Lemma slot_handler_refuses (i : Intent) (rule : slot_rule) (w : World) :
  slot_rule_of i = Some rule ->
  handler rule [] w
  = (Ret tt, emit (Spoke (refusal rule)) (emit (Invoked (entered rule [])) w)).
Proof.
  intros H; destruct i; try discriminate; injection H as <-; reflexivity.
Qed.

(** The branch of an intent with a slot rule: extract, ask once if the
    extraction is empty, hand the slot to the handler. *)
Lemma slot_branch (query : str) (rule : slot_rule) :
  falsy query = false ->
  slot_rule_of (match_intent query) = Some rule ->
  parse_and_execute query
  = (slot <- clarify (extract rule query) (prompt rule) ;;
     handler rule slot ;;
     ret true).
Proof.
  intros Hq H; rewrite (parse_and_execute_dispatch query Hq).
  destruct (match_intent query); try discriminate; injection H as <-;
    reflexivity.
Qed.

Lemma send_email_enters (to_address subject body : str) (w : World) :
  exists (sent : bool) (w' : World),
    send_email to_address subject body w = (Ret sent, w')
    /\ invocations (trace w')
       = invocations (trace w) ++ [H_send_email to_address subject body].
Proof.
  unfold send_email, bind, tell, ask, ret; cbn [env emit].
  destruct (unset (environ (env w) EMAIL_USER)
            || unset (environ (env w) EMAIL_PASS)).
  - do 2 eexists; split; [reflexivity|calls].
  - unfold speak; cbn [lit list_ascii_of_string app falsy].
    unfold tell; cbn [env emit].
    destruct (smtp_fails (env w) _ _ _);
      do 2 eexists; (split; [reflexivity|calls]).
Qed.

End Slots.

(** C2, as stated, fails: "play" names no song, nobody answers the
    question and an empty line is typed; [play_song] is entered with
    the empty song name, after a single question. *)
Lemma handler_entered_with_empty_slot :
  let w := Sample.session_with Sample.laptop [] [Line []] in
  let w' := snd (parse_and_execute (lit "play") w) in
  match_intent (lit "play") = PlaySong
  /\ song_title (lit "play") = []
  /\ fst (parse_and_execute (lit "play") w) = Ret true
  /\ invocations (trace w') = [H_play_song []]
  /\ times_spoken (lit "Which song should I play?") (trace w') = 1
  /\ times_spoken (lit "No song specified.") (trace w') = 1.
Proof. repeat split; reflexivity. Qed.

(** C2, amended.  For WikiLookup, WebSearch and PlaySong: when the
    extraction is not empty the handler is run on the extracted value
    and nothing is asked; when it is empty the question is spoken once,
    one more utterance is taken through [take_command], and the handler
    is run on that utterance whatever it is.  The handler records its
    entry with the slot it was given, and given the empty slot it only
    says that nothing was provided. *)
Theorem one_clarification_round (query : str) (w : World) (rule : slot_rule) :
  falsy query = false ->
  slot_rule_of (match_intent query) = Some rule ->
  (falsy (extract rule query) = false ->
   parse_and_execute query w
   = (handler rule (extract rule query) ;; ret true) w)
  /\ (falsy (extract rule query) = true ->
      forall (answer : str) (w1 : World),
        take_command (emit (Spoke (prompt rule)) w) = (Ret answer, w1) ->
        parse_and_execute query w = (handler rule answer ;; ret true) w1)
  /\ (forall (slot : str) (w0 : World),
        exists w' : World,
          handler rule slot w0 = (Ret tt, w')
          /\ invocations (trace w')
             = invocations (trace w0) ++ [entered rule slot])
  /\ (forall w0 : World,
        handler rule [] w0
        = (Ret tt,
           emit (Spoke (refusal rule)) (emit (Invoked (entered rule [])) w0))).
Proof.
  intros Hq Hrule.
  assert (Hprompt : falsy (prompt rule) = false).
  { destruct (match_intent query); try discriminate;
      injection Hrule as <-; reflexivity. }
  rewrite (slot_branch query rule Hq Hrule).
  repeat split.
  - intros Hslot; unfold bind at 1, clarify; now rewrite Hslot.
  - intros Hslot answer w1 Htake.
    unfold bind at 1, clarify; rewrite Hslot.
    unfold bind at 1; rewrite (speak_says _ w Hprompt).
    now rewrite Htake.
  - intros slot w0.
    exact (slot_handler_enters (match_intent query) rule slot w0 Hrule).
  - intros w0.
    exact (slot_handler_refuses (match_intent query) rule w0 Hrule).
Qed.

(** "play imagine" names its song; "play" does not, and the typed
    answer is empty. *)
Lemma one_clarification_round_witness :
  let rule := mkRule song_title (lit "Which song should I play?")
                play_song H_play_song (lit "No song specified.") in
  let w := Sample.session_with Sample.laptop [] [Line []] in
  let w1 := snd (take_command (emit (Spoke (prompt rule)) w)) in
  (falsy (extract rule (lit "play imagine")) = false
   /\ parse_and_execute (lit "play imagine") w
      = (play_song (lit "imagine") ;; ret true) w)
  /\ (falsy (extract rule (lit "play")) = true
      /\ take_command (emit (Spoke (prompt rule)) w) = (Ret [], w1)
      /\ parse_and_execute (lit "play") w = (play_song [] ;; ret true) w1).
Proof.
  intros rule w w1.
  assert (Hrule1 : slot_rule_of (match_intent (lit "play imagine"))
                   = Some rule) by reflexivity.
  assert (Hrule2 : slot_rule_of (match_intent (lit "play")) = Some rule)
    by reflexivity.
  assert (Htake : take_command (emit (Spoke (prompt rule)) w) = (Ret [], w1))
    by reflexivity.
  destruct (one_clarification_round (lit "play imagine") w rule
              eq_refl Hrule1) as (Hfull & _).
  destruct (one_clarification_round (lit "play") w rule eq_refl Hrule2)
    as (_ & Hempty & _).
  split.
  - split; [reflexivity|exact (Hfull eq_refl)].
  - split; [reflexivity|].
    split; [exact Htake|exact (Hempty eq_refl [] w1 Htake)].
Defined.

(** ** The e-mail dialogue *)

Section Email.

(** The e-mail branch once subject and body have been taken. *)
Lemma email_branch (query subject body : str) (w w1 w2 : World) :
  falsy query = false ->
  match_intent query = SendEmail ->
  take_command (emit (Spoke ask_subject) w) = (Ret subject, w1) ->
  take_command (emit (Spoke ask_body) w1) = (Ret body, w2) ->
  parse_and_execute query w
  = ((if looks_like_address subject
      then send_email subject (lit "No subject") body
      else
        speak ask_recipient ;;
        typed <- input (lit "Recipient email: ") ;;
        send_email (strip typed) subject body) ;;
     ret true) w2.
Proof.
  intros Hq Hi Hsubject Hbody.
  rewrite (parse_and_execute_dispatch query Hq), Hi; cbn [execute].
  unfold bind at 1; rewrite (speak_says _ w) by reflexivity.
  unfold bind at 1; fold ask_subject; rewrite Hsubject.
  unfold bind at 1; rewrite (speak_says _ w1) by reflexivity.
  unfold bind at 1; fold ask_body; now rewrite Hbody.
Qed.

End Email.

(** C5, as stated, fails: a subject with a TAB inside holds whitespace,
    yet it is taken for the recipient; the test looks for the space
    character only. *)
Lemma tab_in_subject_still_overrides :
  let subject := lit "me@x.org" ++ [Sample.TAB] ++ lit "now" in
  let w := Sample.session_with Sample.mailer []
             [Line subject; Line (lit "hello")] in
  let w' := snd (parse_and_execute (lit "send email") w) in
  existsb isspace subject = true
  /\ match_intent (lit "send email") = SendEmail
  /\ invocations (trace w')
     = [H_send_email subject (lit "No subject") (lit "hello")]
  /\ times_spoken ask_recipient (trace w') = 0.
Proof. repeat split; reflexivity. Qed.

(** C5, amended.  In the e-mail branch, with [subject] and [body] the
    two utterances taken after the two questions: if [subject] contains
    "@" and "." and no space character, nothing more is asked and
    [send_email] is entered with [subject] as the recipient and
    "No subject" as the subject; otherwise the recipient is asked for
    and what is typed, trimmed, is the recipient. *)
Theorem email_subject_override (query subject body : str) (w w1 w2 : World) :
  falsy query = false ->
  match_intent query = SendEmail ->
  take_command (emit (Spoke ask_subject) w) = (Ret subject, w1) ->
  take_command (emit (Spoke ask_body) w1) = (Ret body, w2) ->
  (contains (lit "@") subject = true ->
   contains (lit ".") subject = true ->
   contains (lit " ") subject = false ->
   parse_and_execute query w
   = (send_email subject (lit "No subject") body ;; ret true) w2
   /\ exists w' : World,
        parse_and_execute query w = (Ret true, w')
        /\ invocations (trace w')
           = invocations (trace w2)
             ++ [H_send_email subject (lit "No subject") body])
  /\ (contains (lit "@") subject = false
      \/ contains (lit ".") subject = false
      \/ contains (lit " ") subject = true ->
      forall (typed : str) (w3 : World),
        input (lit "Recipient email: ") (emit (Spoke ask_recipient) w2)
        = (Ret typed, w3) ->
        parse_and_execute query w
        = (send_email (strip typed) subject body ;; ret true) w3
        /\ exists w' : World,
             parse_and_execute query w = (Ret true, w')
             /\ invocations (trace w')
                = invocations (trace w3)
                  ++ [H_send_email (strip typed) subject body]).
Proof.
  intros Hq Hi Hsubject Hbody.
  rewrite (email_branch query subject body w w1 w2 Hq Hi Hsubject Hbody).
  split.
  - intros Hat Hdot Hspace.
    unfold looks_like_address; rewrite Hat, Hdot, Hspace; cbn [andb negb].
    split; [reflexivity|].
    destruct (send_email_enters subject (lit "No subject") body w2)
      as (sent & w' & Hrun & Hinv).
    exists w'; split; [|exact Hinv].
    unfold bind; now rewrite Hrun.
  - intros Hnot typed w3 Htyped.
    assert (Hlooks : looks_like_address subject = false).
    { unfold looks_like_address.
      destruct Hnot as [H|[H|H]]; rewrite H; cbn;
        now rewrite ?andb_false_r. }
    rewrite Hlooks.
    assert (Hrun : (speak ask_recipient ;;
                    typed <- input (lit "Recipient email: ") ;;
                    send_email (strip typed) subject body) w2
                   = send_email (strip typed) subject body w3).
    { unfold bind at 1; rewrite (speak_says _ w2) by reflexivity.
      unfold bind at 1; now rewrite Htyped. }
    split.
    + unfold bind at 1; rewrite Hrun; reflexivity.
    + destruct (send_email_enters (strip typed) subject body w3)
        as (sent & w' & Hsend & Hinv).
      exists w'; split; [|exact Hinv].
      unfold bind at 1; rewrite Hrun, Hsend; reflexivity.
Qed.

(** Nobody speaks.  Typed "alice@example.com" as the subject, the
    address becomes the recipient; typed "lunch on friday", the
    recipient is asked for. *)
Lemma email_subject_override_witness :
  let query := lit "send email" in
  let address := lit "alice@example.com" in
  let w := Sample.session_with Sample.mailer []
             [Line address; Line (lit "hello")] in
  let w1 := snd (take_command (emit (Spoke ask_subject) w)) in
  let w2 := snd (take_command (emit (Spoke ask_body) w1)) in
  let v := Sample.session_with Sample.mailer []
             [Line (lit "lunch on friday"); Line (lit "hello");
              Line (lit " bob@example.com ")] in
  let v1 := snd (take_command (emit (Spoke ask_subject) v)) in
  let v2 := snd (take_command (emit (Spoke ask_body) v1)) in
  let v3 := snd (input (lit "Recipient email: ")
                   (emit (Spoke ask_recipient) v2)) in
  (parse_and_execute query w
   = (send_email address (lit "No subject") (lit "hello") ;; ret true) w2
   /\ exists w' : World,
        parse_and_execute query w = (Ret true, w')
        /\ invocations (trace w')
           = invocations (trace w2)
             ++ [H_send_email address (lit "No subject") (lit "hello")])
  /\ (parse_and_execute query v
      = (send_email (lit "bob@example.com") (lit "lunch on friday")
           (lit "hello") ;; ret true) v3
      /\ exists v' : World,
           parse_and_execute query v = (Ret true, v')
           /\ invocations (trace v')
              = invocations (trace v3)
                ++ [H_send_email (strip (lit " bob@example.com "))
                      (lit "lunch on friday") (lit "hello")]).
Proof.
  intros query address w w1 w2 v v1 v2 v3.
  destruct (email_subject_override query address (lit "hello") w w1 w2
              eq_refl eq_refl eq_refl eq_refl) as (Hyes & _).
  destruct (email_subject_override query (lit "lunch on friday")
              (lit "hello") v v1 v2 eq_refl eq_refl eq_refl eq_refl)
    as (_ & Hno).
  split.
  - exact (Hyes eq_refl eq_refl eq_refl).
  - exact (Hno (or_introl eq_refl) (lit " bob@example.com ") v3 eq_refl).
Defined.

(** ** Input resolution *)

Section InputResolution.

(** What [take_command] returns, by what the two channels deliver. *)
Lemma take_command_result (w : World) :
  fst (take_command w)
  = match next_voice w with
    | MicUnavailable | ListenFault => Raise OSError
    | Heard (Transcript query) => Ret (lower query)
    | Silence | Heard _ =>
        match keyboard w with
        | [] => Raise EOFError
        | Line l :: _ => Ret (lower (strip l))
        | CtrlC :: _ => Raise KeyboardInterrupt
        end
    end.
Proof.
  unfold take_command, microphone, type_command, input, next_voice, bind.
  destruct w as [e v k f t]; cbn [voice keyboard].
  destruct v as [|[| | |[q| | |]] v]; cbn;
    try reflexivity; destruct k as [|[l|] k]; reflexivity.
Qed.

End InputResolution.

(** C4, as stated, fails twice.  A transcript comes back lower-cased
    but with its surrounding blanks; and when the microphone cannot be
    opened, or the keyboard is at end of input when the fallback is
    taken, [take_command] raises instead of returning. *)
Lemma voice_path_untrimmed_or_raises :
  (let w := Sample.session_with Sample.laptop
              [Heard (Transcript (lit " Hello "))] [] in
   fst (take_command w) = Ret (lit " hello ")
   /\ strip (lit " hello ") <> lit " hello ")
  /\ (let w := Sample.session_with Sample.laptop
                 [MicUnavailable] [Line (lit "hi")] in
      fst (take_command w) = Raise OSError)
  /\ (let w := Sample.session_with Sample.laptop [Silence] [] in
      fst (take_command w) = Raise EOFError).
Proof.
  split; [split; [reflexivity|vm_compute; discriminate]|].
  split; reflexivity.
Qed.

(** C4, amended.  [take_command] returns a string whenever the
    microphone opens, listening ends in audio or in a timeout, and a
    line is typed if the typed fallback is taken.  Every utterance it
    returns is lower-cased; one that comes from the typed fallback is
    also trimmed. *)
Theorem take_command_normalizes (w : World) :
  (microphone_works w = true ->
   (typed_path w = true -> line_waiting w = true) ->
   exists (query : str) (w' : World), take_command w = (Ret query, w'))
  /\ (forall (query : str) (w' : World),
        take_command w = (Ret query, w') ->
        lower query = query
        /\ (typed_path w = true -> strip query = query)).
Proof.
  pose proof (take_command_result w) as Hres.
  unfold microphone_works, typed_path, line_waiting.
  split.
  - intros Hmic Hline.
    destruct (take_command w) as [r w'] eqn:Hrun; cbn [fst] in Hres.
    destruct (next_voice w) as [| | |[q| | |]]; try discriminate;
      try (exists (lower q), w'; now rewrite Hres);
      specialize (Hline eq_refl);
      destruct (keyboard w) as [|[l|] k]; try discriminate;
      exists (lower (strip l)), w'; now rewrite Hres.
  - intros query w' Hrun; rewrite Hrun in Hres; cbn [fst] in Hres.
    destruct (next_voice w) as [| | |[q| | |]]; try discriminate;
      try (injection Hres as ->; split;
           [apply lower_idem|discriminate]);
      destruct (keyboard w) as [|[l|] k]; try discriminate;
      injection Hres as ->; split;
      try apply lower_idem; intros _; apply typed_normalized.
Qed.

(** Nobody speaks and "  Open Wikipedia " is typed. *)
Lemma take_command_normalizes_witness :
  let w := Sample.session_with Sample.laptop []
             [Line (lit "  Open Wikipedia ")] in
  let w' := snd (take_command w) in
  (exists (query : str) (v : World), take_command w = (Ret query, v))
  /\ take_command w = (Ret (lit "open wikipedia"), w')
  /\ lower (lit "open wikipedia") = lit "open wikipedia"
  /\ strip (lit "open wikipedia") = lit "open wikipedia".
Proof.
  intros w w'.
  assert (Hrun : take_command w = (Ret (lit "open wikipedia"), w'))
    by reflexivity.
  destruct (take_command_normalizes w) as (Hreturns & Hnormal).
  destruct (Hnormal (lit "open wikipedia") w' Hrun) as (Hlower & Htrim).
  split; [exact (Hreturns eq_refl (fun _ => eq_refl))|].
  split; [exact Hrun|].
  split; [exact Hlower|exact (Htrim eq_refl)].
Defined.

(** ** The note file *)

Section Memory.

Lemma str_eqb_refl (s : str) : str_eqb s s = true.
Proof. unfold str_eqb; now destruct (list_eq_dec ascii_dec s s). Qed.

(** A string without a carriage return comes back from the file as it
    was written, on either platform. *)
Lemma newlines_round_trip (p : platform) (s : str) :
  contains [CR] s = false -> decode_newlines (encode_newlines p s) = s.
Proof.
  induction s as [|c s IH]; [reflexivity|].
  cbn [contains startswith]; intros H.
  apply orb_false_elim in H as [Hc Hs].
  rewrite andb_true_r in Hc.
  specialize (IH Hs).
  cbn [encode_newlines flat_map]; fold (encode_newlines p s).
  destruct (Ascii.eqb c LF) eqn:Hlf.
  - apply Ascii.eqb_eq in Hlf; subst c.
    destruct p; cbn; now rewrite IH.
  - cbn [app decode_newlines].
    rewrite Ascii.eqb_sym in Hc; rewrite Hc.
    now rewrite IH.
Qed.

(** A successful [remember_to_file]. *)
Lemma remember_to_file_saves (note filename : str) (w : World) :
  write_fails (env w) filename = false ->
  remember_to_file note filename w
  = (Ret tt,
     emit (Spoke (lit "I will remember that."))
       (store filename (encode_newlines (os (env w)) note)
          (emit (Invoked (H_remember_to_file note filename)) w))).
Proof.
  intros Hw.
  unfold remember_to_file, bind, tell, write_text; cbn [env emit].
  now rewrite Hw.
Qed.

(** [read_memory] on a file that is there and can be read. *)
Lemma read_memory_reports (stored filename : str) (w : World) :
  read_fails (env w) filename = false ->
  files w filename = Some stored ->
  read_memory filename w
  = (Ret tt,
     let w1 := emit (Invoked (H_read_memory filename)) w in
     let content := strip (decode_newlines stored) in
     if falsy content then emit (Spoke (lit "The memory file is empty.")) w1
     else emit (Spoke content)
            (emit (Spoke (lit "You asked me to remember the following:")) w1)).
Proof.
  intros Hr Hf.
  unfold read_memory, bind, tell, exists_file, read_text.
  cbn [env emit files]; rewrite Hf; cbn [negb].
  change (env (emit (Invoked (H_read_memory filename)) w)) with (env w).
  change (files (emit (Invoked (H_read_memory filename)) w)) with (files w).
  rewrite Hf, Hr.
  destruct (strip (decode_newlines stored)) as [|c content]; reflexivity.
Qed.

End Memory.

(** C10, as stated, fails.  The note "a", carriage return, "b" is saved
    and read back with a line feed in the middle: the file is read in
    text mode.  And a file that was written but cannot be read is
    reported as unreadable. *)
Lemma carriage_return_not_restored :
  (let note := [ascii_of_nat 97; CR; ascii_of_nat 98] in
   let w := Sample.session_with Sample.laptop [] [] in
   let w1 := snd (remember_to_file note data_txt w) in
   let w2 := snd (read_memory data_txt w1) in
   strip note = note
   /\ trace w1
      = [Invoked (H_remember_to_file note data_txt);
         Spoke (lit "I will remember that.")]
   /\ trace w2
      = trace w1
        ++ [Invoked (H_read_memory data_txt);
            Spoke (lit "You asked me to remember the following:");
            Spoke [ascii_of_nat 97; LF; ascii_of_nat 98]]
   /\ times_spoken (strip note) (trace w2) = 0)
  /\ (let unreadable :=
        mkEnv Posix (fun _ => None) 9 (lit "09:00:00 AM")
          (lit "Monday, 01 January 2024") None (fun _ _ => PageError)
          (fun _ => false) (fun _ => false) (fun _ _ _ => false) None None
          (fun _ => false) (fun _ => true) in
      let w := Sample.session_with unreadable [] [] in
      let w1 := snd (remember_to_file (lit "milk") data_txt w) in
      let w2 := snd (read_memory data_txt w1) in
      times_spoken (lit "I will remember that.") (trace w1) = 1
      /\ times_spoken (lit "milk") (trace w2) = 0
      /\ times_spoken (lit "Unable to read the memory file.") (trace w2) = 1).
Proof. repeat split; reflexivity. Qed.

(** C10, amended.  After [remember_to_file] has saved a note that holds
    no carriage return, [read_memory] on the same file, when the file
    can be read, speaks the announcement and then exactly the note
    trimmed, if that is not empty; if the note is empty or all
    whitespace it says that the memory file is empty. *)
Theorem remember_then_recall (note filename : str) (w : World) :
  write_fails (env w) filename = false ->
  read_fails (env w) filename = false ->
  contains [CR] note = false ->
  exists w1 : World,
    remember_to_file note filename w = (Ret tt, w1)
    /\ trace w1
       = trace w ++ [Invoked (H_remember_to_file note filename);
                     Spoke (lit "I will remember that.")]
    /\ read_memory filename w1
       = (Ret tt,
          if falsy (strip note)
          then emit (Spoke (lit "The memory file is empty."))
                 (emit (Invoked (H_read_memory filename)) w1)
          else emit (Spoke (strip note))
                 (emit (Spoke (lit "You asked me to remember the following:"))
                    (emit (Invoked (H_read_memory filename)) w1))).
Proof.
  intros Hw Hr Hcr.
  eexists; split; [exact (remember_to_file_saves note filename w Hw)|].
  split.
  - cbn [trace emit store]; now rewrite <- app_assoc.
  - rewrite (read_memory_reports (encode_newlines (os (env w)) note)).
    + cbv zeta; now rewrite (newlines_round_trip _ note Hcr).
    + exact Hr.
    + cbn [files emit store]; now rewrite str_eqb_refl.
Qed.

(** The note "  buy milk " comes back as "buy milk"; the note "   "
    comes back as an empty memory file. *)
Lemma remember_then_recall_witness :
  let w := Sample.session_with Sample.laptop [] [] in
  (exists w1 : World,
     remember_to_file (lit "  buy milk ") data_txt w = (Ret tt, w1)
     /\ trace w1
        = trace w
          ++ [Invoked (H_remember_to_file (lit "  buy milk ") data_txt);
              Spoke (lit "I will remember that.")]
     /\ read_memory data_txt w1
        = (Ret tt,
           emit (Spoke (lit "buy milk"))
             (emit (Spoke (lit "You asked me to remember the following:"))
                (emit (Invoked (H_read_memory data_txt)) w1))))
  /\ (exists w1 : World,
        remember_to_file (lit "   ") data_txt w = (Ret tt, w1)
        /\ trace w1
           = trace w
             ++ [Invoked (H_remember_to_file (lit "   ") data_txt);
                 Spoke (lit "I will remember that.")]
        /\ read_memory data_txt w1
           = (Ret tt,
              emit (Spoke (lit "The memory file is empty."))
                (emit (Invoked (H_read_memory data_txt)) w1))).
Proof.
  intros w; split.
  - exact (remember_then_recall (lit "  buy milk ") data_txt w
             eq_refl eq_refl eq_refl).
  - exact (remember_then_recall (lit "   ") data_txt w
             eq_refl eq_refl eq_refl).
Defined.

(** * Further properties of the dispatch *)

Section Table.

(** A keyword that contains another one adds nothing to a test. *)
Lemma longer_keyword_absorbed (short long query : str) :
  contains short long = true ->
  contains short query || contains long query = contains short query.
Proof.
  intros Hsub.
  destruct (contains short query) eqn:Hs; [reflexivity|].
  now rewrite (contains_absent short long query Hsub Hs).
Qed.

Lemma exit_words_short (query : str) :
  any_in exit_words query
  = any_in [lit "exit"; lit "quit"; lit "bye"] query.
Proof.
  unfold any_in, exit_words; cbn [existsb].
  rewrite !orb_false_r.
  now rewrite (longer_keyword_absorbed (lit "bye") (lit "goodbye") query
                 eq_refl).
Qed.

End Table.

(** X1.  The chain of tests in [parse_and_execute] is a first match
    over [intent_table]: the branch taken is that of the first row, in
    the order of the source, one of whose keywords occurs in the
    utterance, and the fallback search when none does. *)
Theorem match_intent_first_match (query : str) :
  match_intent query = first_match intent_table query
  /\ (falsy query = false ->
      parse_and_execute query
      = execute (first_match intent_table query) query).
Proof.
  assert (H : match_intent query = first_match intent_table query).
  { unfold match_intent, intent_table, first_match.
    unfold any_in; cbn [existsb].
    now rewrite !orb_false_r, !orb_assoc. }
  split; [exact H|].
  intros Hq; rewrite <- H.
  exact (parse_and_execute_dispatch query Hq).
Qed.

(** "take a screenshot at lunch time": the time is told. *)
Lemma match_intent_first_match_witness :
  let query := lit "take a screenshot at lunch time" in
  match_intent query = first_match intent_table query
  /\ first_match intent_table query = TellTime
  /\ parse_and_execute query
     = execute (first_match intent_table query) query.
Proof.
  intros query.
  destruct (match_intent_first_match query) as (Hi & Hrun).
  split; [exact Hi|].
  split; [reflexivity|exact (Hrun eq_refl)].
Defined.

(** X2.  Eight of the keywords never decide a test: "goodbye",
    "what is your name", "how can you help me", "search in chrome",
    "send email", "remember that" and "play song" each contain a keyword
    of their own test, and "what do you remember" contains the keyword
    of the test before its own.  Without them the branch taken is the
    same for every utterance. *)
Theorem redundant_keywords (query : str) :
  match_intent query = first_match short_table query.
Proof.
  unfold match_intent, short_table, first_match.
  rewrite (exit_words_short query).
  unfold any_in; cbn [existsb]; rewrite !orb_false_r.
  rewrite (longer_keyword_absorbed (lit "your name")
             (lit "what is your name") query eq_refl).
  rewrite (longer_keyword_absorbed (lit "how can you help")
             (lit "how can you help me") query eq_refl).
  rewrite (longer_keyword_absorbed (lit "search")
             (lit "search in chrome") query eq_refl).
  rewrite (orb_comm (contains (lit "send email") query)).
  rewrite (longer_keyword_absorbed (lit "email") (lit "send email") query
             eq_refl).
  rewrite (orb_comm (contains (lit "remember that") query)).
  rewrite (longer_keyword_absorbed (lit "remember") (lit "remember that")
             query eq_refl).
  rewrite (longer_keyword_absorbed (lit "play") (lit "play song") query
             eq_refl).
  destruct (contains (lit "remember") query) eqn:Hrem.
  - repeat match goal with
           | |- (if ?b then _ else _) = (if ?b then _ else _) =>
               destruct b; [reflexivity|]
           end.
    reflexivity.
  - rewrite (contains_absent (lit "remember") (lit "what do you remember")
               query eq_refl Hrem).
    now rewrite orb_false_r.
Qed.

Section Returns.

(** A program that ends in [ret true] returns nothing but [true]. *)
Lemma bind_returns_true {A : Type} (c : M A) (k : A -> M bool) :
  (forall (a : A) (w : World) (b : bool) (w' : World),
      k a w = (Ret b, w') -> b = true) ->
  forall (w : World) (b : bool) (w' : World),
    bind c k w = (Ret b, w') -> b = true.
Proof.
  intros Hk w b w'; unfold bind.
  destruct (c w) as [[a|e] w1]; [apply Hk|discriminate].
Qed.

Lemma ret_true_returns_true (w : World) (b : bool) (w' : World) :
  ret true w = (Ret b, w') -> b = true.
Proof. unfold ret; congruence. Qed.

Lemma exit_iff_exit_word (query : str) :
  match_intent query = Exit <-> any_in exit_words query = true.
Proof.
  unfold match_intent.
  destruct (any_in exit_words query); split; try reflexivity;
    try discriminate.
  repeat match goal with
         | |- (if ?b then _ else _) = _ -> _ => destruct b
         end; discriminate.
Qed.

(** An exit word anywhere: the farewell, and [false]. *)
Lemma exit_run (query : str) (w : World) :
  any_in exit_words query = true ->
  falsy query = false ->
  parse_and_execute query w = (Ret false, emit (Spoke goodbye) w).
Proof.
  intros Hexit Hq; unfold parse_and_execute; now rewrite Hq, Hexit.
Qed.

Lemma exit_word_nonempty (query : str) :
  any_in exit_words query = true -> falsy query = false.
Proof. now destruct query. Qed.

(** Every branch but the first ends in [return True]. *)
Lemma other_branches_return_true (query : str) (w w' : World) (b : bool) :
  falsy query = false ->
  any_in exit_words query = false ->
  parse_and_execute query w = (Ret b, w') ->
  b = true.
Proof.
  intros Hq Hexit Hrun.
  rewrite (parse_and_execute_dispatch query Hq) in Hrun.
  assert (Hi : match_intent query <> Exit).
  { intros Hi; apply exit_iff_exit_word in Hi; congruence. }
  revert Hrun.
  destruct (match_intent query); try congruence; cbn [execute];
    repeat (apply bind_returns_true; intros ? ? ? ?);
    apply ret_true_returns_true.
Qed.

(** A turn that returned [false] had an exit word in it. *)
Lemma only_exit_word_stops (query : str) (w w' : World) :
  parse_and_execute query w = (Ret false, w') ->
  any_in exit_words query = true.
Proof.
  intros Hrun.
  destruct (falsy query) eqn:Hq.
  - destruct query; [|discriminate]; cbv in Hrun; discriminate.
  - destruct (any_in exit_words query) eqn:Hexit; [reflexivity|].
    now pose proof (other_branches_return_true query w w' false
                      Hq Hexit Hrun).
Qed.

End Returns.

(** X3.  Whenever [parse_and_execute] returns, it returns [false] if
    the utterance contains an exit word and [true] if it does not: no
    other branch stops the session. *)
Theorem only_exit_returns_false (query : str) (w w' : World) (b : bool) :
  parse_and_execute query w = (Ret b, w') ->
  b = negb (any_in exit_words query).
Proof.
  intros Hrun.
  destruct (falsy query) eqn:Hq.
  - destruct query; [|discriminate].
    cbv in Hrun; now injection Hrun as <- _.
  - destruct (any_in exit_words query) eqn:Hexit.
    + rewrite (exit_run query w Hexit Hq) in Hrun.
      now injection Hrun as <- _.
    + exact (other_branches_return_true query w w' b Hq Hexit Hrun).
Qed.

(** "tell me a joke" is heard on the sample laptop. *)
Lemma only_exit_returns_false_witness :
  let query := lit "tell me a joke" in
  let w := Sample.session_with Sample.laptop [] [] in
  parse_and_execute query w = (Ret true, snd (parse_and_execute query w))
  /\ true = negb (any_in exit_words query).
Proof.
  intros query w.
  assert (Hrun : parse_and_execute query w
                 = (Ret true, snd (parse_and_execute query w)))
    by reflexivity.
  split; [exact Hrun|].
  exact (only_exit_returns_false query w _ true Hrun).
Defined.

(** * Further properties of the handlers *)

Section Handlers.

Lemma external_calls_app (t u : list event) :
  external_calls (t ++ u) = external_calls t + external_calls u.
Proof.
  induction t as [|e t IH]; [reflexivity|].
  destruct e; simpl; now rewrite IH.
Qed.

End Handlers.


Ltac reduce_run :=
  cbn [lit list_ascii_of_string app falsy negb env emit store files].

Ltac step_run :=
  reduce_run;
  match goal with
  | |- context [if falsy ?x then _ else _] => destruct x
  | |- context [if ?b then _ else _] => destruct b
  | |- context [match ?x with Some _ => _ | None => _ end] =>
      destruct x as [?|]
  | |- context [match ?x with Summary _ => _ | _ => _ end] => destruct x
  | |- context [let (_, _) := ?p in _] => is_var p; destruct p
  end.

(** Runs a handler through all the answers its collaborators can give. *)
Ltac run_handler :=
  unfold tell_time, tell_date, get_time, get_date, tell_joke, cpu_status,
    send_email, take_screenshot, search_in_chrome, wiki_lookup, play_song,
    remember_to_file, read_memory, write_text, read_text, exists_file,
    speak, bind, tell, ask, ret;
  repeat step_run; reduce_run.



(** X5.  A handler calls out of the program at most once per
    invocation; nothing is retried.  The Wikipedia look-up, the web
    search and the song player call out exactly once for a slot that is
    not empty and not at all for the empty slot. *)
Theorem handler_calls_out_once (h : handler_call) (w : World) :
  external_calls (trace (snd (perform h w))) <= external_calls (trace w) + 1
  /\ forall slot : str,
       h = H_wiki_lookup slot 2 \/ h = H_search_in_chrome slot
       \/ h = H_play_song slot ->
       external_calls (trace (snd (perform h w)))
       = external_calls (trace w) + (if falsy slot then 0 else 1).
Proof.
  split.
  - destruct h; cbn [perform]; run_handler;
      cbn [snd trace emit store]; rewrite ?external_calls_app;
      cbn [external_calls]; lia.
  - intros slot [-> | [-> | ->]]; cbn [perform]; run_handler;
      cbn [snd trace emit store]; rewrite ?external_calls_app;
      cbn [external_calls]; lia.
Qed.

(** A search for "tides" opens one tab; a search for nothing opens
    none. *)
Lemma handler_calls_out_once_witness :
  let w := Sample.session_with Sample.laptop [] [] in
  external_calls (trace (snd (perform (H_search_in_chrome (lit "tides")) w)))
  = external_calls (trace w) + 1
  /\ external_calls (trace (snd (perform (H_search_in_chrome []) w)))
     = external_calls (trace w) + 0.
Proof.
  intros w.
  destruct (handler_calls_out_once (H_search_in_chrome (lit "tides")) w)
    as (_ & Hfull).
  destruct (handler_calls_out_once (H_search_in_chrome []) w)
    as (_ & Hempty).
  split.
  - exact (Hfull (lit "tides") (or_intror (or_introl eq_refl))).
  - exact (Hempty [] (or_intror (or_introl eq_refl))).
Defined.

(** * Further properties of input resolution and of the session *)

(** X6.  One call of [take_command] uses up exactly one attempt on the
    microphone, and one entry of the keyboard exactly when the
    microphone works and no transcript came back; it enters no
    handler, calls nothing outside and leaves the files alone. *)
Theorem take_command_accounting (w : World) :
  let w' := snd (take_command w) in
  env w' = env w
  /\ files w' = files w
  /\ voice w' = tl (voice w)
  /\ keyboard w'
     = (if microphone_works w && typed_path w then tl (keyboard w)
        else keyboard w)
  /\ invocations (trace w') = invocations (trace w)
  /\ external_calls (trace w') = external_calls (trace w).
Proof.
  unfold take_command, microphone, type_command, input, microphone_works,
    typed_path, next_voice, speak, bind, tell, ret, raise.
  destruct w as [e v k f t]; cbn [voice keyboard].
  destruct v as [|[| | |[q| | |]] v]; cbn;
    try (destruct k as [|[l|] k]; cbn);
    repeat split;
    rewrite ?invocations_app, ?external_calls_app; cbn;
    rewrite ?app_nil_r; try reflexivity; lia.
Qed.

Section Pending.

Lemma never_adds_input_ret {A : Type} (a : A) : never_adds_input (ret a).
Proof. intros w; apply Nat.le_refl. Qed.

Lemma never_adds_input_bind {A B : Type} (c : M A) (k : A -> M B) :
  never_adds_input c ->
  (forall a : A, never_adds_input (k a)) ->
  never_adds_input (bind c k).
Proof.
  intros Hc Hk w; unfold bind.
  specialize (Hc w).
  destruct (c w) as [[a|e] w1]; cbn [snd] in *; [|exact Hc].
  exact (Nat.le_trans _ _ _ (Hk a w1) Hc).
Qed.

Lemma never_adds_input_speak (text : str) : never_adds_input (speak text).
Proof. intros w; unfold speak; destruct text; apply Nat.le_refl. Qed.

Lemma never_adds_input_input (prompt : str) : never_adds_input (input prompt).
Proof.
  intros [e v k f t]; unfold input, pending; cbn.
  destruct k as [|[l|] k]; cbn; lia.
Qed.

Lemma never_adds_input_take_command : never_adds_input take_command.
Proof.
  intros [e v k f t].
  unfold take_command, microphone, type_command, input, next_voice, speak,
    bind, tell, ret, raise, pending; cbn [voice keyboard].
  destruct v as [|[| | |[q| | |]] v]; cbn;
    try (destruct k as [|[l|] k]; cbn); lia.
Qed.

(** An utterance that came back used up some input. *)
Lemma take_command_uses_input (w w' : World) (query : str) :
  take_command w = (Ret query, w') -> pending w' < pending w.
Proof.
  destruct w as [e v k f t].
  unfold take_command, microphone, type_command, input, next_voice, speak,
    bind, tell, ret, raise, pending; cbn [voice keyboard].
  destruct v as [|[| | |[q| | |]] v]; cbn;
    try (destruct k as [|[l|] k]; cbn);
    intros H; try discriminate; injection H as _ <-; cbn; lia.
Qed.

Lemma snd_then_ret {A : Type} (c : M A) (w : World) :
  snd ((c ;; ret tt) w) = snd (c w).
Proof. unfold bind, ret; now destruct (c w) as [[a|e] w1]. Qed.

(** A handler takes no input. *)
Lemma never_adds_input_perform (h : handler_call) :
  never_adds_input (perform h).
Proof.
  intros w; unfold pending.
  destruct h; cbn [perform]; run_handler; apply Nat.le_refl.
Qed.

Lemma never_adds_input_send_email (to_address subject body : str) :
  never_adds_input (send_email to_address subject body).
Proof.
  intros w; rewrite <- snd_then_ret.
  exact (never_adds_input_perform (H_send_email to_address subject body) w).
Qed.

Lemma never_adds_input_take_screenshot : never_adds_input take_screenshot.
Proof.
  intros w; rewrite <- snd_then_ret.
  exact (never_adds_input_perform H_take_screenshot w).
Qed.

(** A turn takes input away at most. *)
Lemma never_adds_input_parse_and_execute (query : str) :
  never_adds_input (parse_and_execute query).
Proof.
  destruct (falsy query) eqn:Hq.
  - destruct query; [|discriminate]; apply never_adds_input_ret.
  - rewrite (parse_and_execute_dispatch query Hq).
    destruct (match_intent query); cbn [execute]; unfold clarify;
      repeat first
        [ apply never_adds_input_ret
        | apply never_adds_input_speak
        | apply never_adds_input_take_command
        | apply never_adds_input_input
        | apply never_adds_input_send_email
        | apply never_adds_input_take_screenshot
        | exact (never_adds_input_perform H_tell_time)
        | exact (never_adds_input_perform H_tell_date)
        | exact (never_adds_input_perform H_tell_joke)
        | exact (never_adds_input_perform H_cpu_status)
        | exact (never_adds_input_perform (H_read_memory _))
        | exact (never_adds_input_perform (H_wiki_lookup _ _))
        | exact (never_adds_input_perform (H_search_in_chrome _))
        | exact (never_adds_input_perform (H_play_song _))
        | exact (never_adds_input_perform (H_remember_to_file _ _))
        | apply never_adds_input_bind; [|intros ?]
        | match goal with
          | |- never_adds_input (if ?b then _ else _) => destruct b
          end ].
Qed.

End Pending.



Section Greeting.

Lemma never_adds_input_ask {A : Type} (f : Env -> A) :
  never_adds_input (ask f).
Proof. intros w; apply Nat.le_refl. Qed.

(** What [wishme] says, in order. *)
Lemma wishme_run (w : World) :
  wishme w
  = (Ret tt,
     emit (Spoke (lit "Today is " ++ clock_date (env w)))
       (emit (Invoked H_tell_date)
          (emit (Spoke (lit "The current time is " ++ clock_time (env w)))
             (emit (Invoked H_tell_time)
                (emit (Spoke (lit "Welcome back. Alpha is at your service."))
                   (emit (Spoke (greeting (clock_hour (env w)))) w)))))).
Proof.
  unfold wishme, greeting, tell_time, tell_date, get_time, get_date, bind,
    ask.
  destruct (Nat.leb_spec 6 (clock_hour (env w))),
    (Nat.ltb_spec (clock_hour (env w)) 12),
    (Nat.leb_spec 12 (clock_hour (env w))),
    (Nat.ltb_spec (clock_hour (env w)) 18),
    (Nat.leb_spec 18 (clock_hour (env w))),
    (Nat.ltb_spec (clock_hour (env w)) 24),
    (Nat.ltb_spec (clock_hour (env w)) 6);
    try lia; reflexivity.
Qed.

Lemma greeting_returns (w : World) :
  (speak (lit "Starting Alpha Assistant.") ;; wishme) w
  = (Ret tt, greeted w).
Proof.
  unfold greeted, bind.
  rewrite (speak_says _ w) by reflexivity.
  now rewrite wishme_run.
Qed.

Lemma greeting_takes_no_input (w : World) : pending (greeted w) = pending w.
Proof.
  unfold greeted, bind.
  rewrite (speak_says _ w) by reflexivity.
  now rewrite wishme_run.
Qed.

End Greeting.

(** X8.  [wishme] speaks one greeting chosen by the hour, then the
    welcome, the time and the date, in this order.  The hours 6 to 11
    give "Good morning.", 12 to 17 "Good afternoon.", 18 to 23
    "Good evening.", and every other hour "Good night.". *)
Theorem wishme_greets (w : World) :
  let hour := clock_hour (env w) in
  wishme w
  = (Ret tt,
     emit (Spoke (lit "Today is " ++ clock_date (env w)))
       (emit (Invoked H_tell_date)
          (emit (Spoke (lit "The current time is " ++ clock_time (env w)))
             (emit (Invoked H_tell_time)
                (emit (Spoke (lit "Welcome back. Alpha is at your service."))
                   (emit (Spoke (greeting hour)) w))))))
  /\ (6 <= hour < 12 -> greeting hour = lit "Good morning.")
  /\ (12 <= hour < 18 -> greeting hour = lit "Good afternoon.")
  /\ (18 <= hour < 24 -> greeting hour = lit "Good evening.")
  /\ (hour < 6 \/ 24 <= hour -> greeting hour = lit "Good night.").
Proof.
  intros hour; split; [exact (wishme_run w)|].
  unfold greeting.
  destruct (Nat.ltb_spec hour 6), (Nat.ltb_spec hour 12),
    (Nat.ltb_spec hour 18), (Nat.ltb_spec hour 24);
    repeat split; intros; try reflexivity; lia.
Qed.

(** Nine in the morning on the sample laptop. *)
Lemma wishme_greets_witness :
  let w := Sample.session_with Sample.laptop [] [] in
  6 <= clock_hour (env w) < 12
  /\ greeting (clock_hour (env w)) = lit "Good morning."
  /\ times_spoken (lit "Good morning.") (trace (snd (wishme w))) = 1.
Proof.
  intros w.
  assert (Hhour : 6 <= clock_hour (env w) < 12) by (cbn; lia).
  destruct (wishme_greets w) as (_ & Hmorning & _).
  split; [exact Hhour|].
  split; [exact (Hmorning Hhour)|reflexivity].
Defined.

Section Ending.

(** With more passes allowed than there is input pending, the loop
    ends: by the farewell, or by an exception. *)
Lemma loop_ends (n : nat) :
  forall w : World,
    pending w < n ->
    (exists (w' : World) (t : list event),
        session_loop n RUNNING w = (Ret TERMINATED, w')
        /\ trace w' = t ++ [Spoke goodbye])
    \/ (exists (e : exn) (w' : World),
           session_loop n RUNNING w = (Raise e, w')).
Proof.
  induction n as [|n IH]; intros w Hn; [lia|].
  cbn [session_loop]; unfold turn, bind.
  destruct (take_command w) as [[query|e] w1] eqn:Htake;
    [|right; now exists e, w1].
  pose proof (take_command_uses_input w w1 query Htake) as Hless.
  pose proof (never_adds_input_parse_and_execute query w1) as Hkeep.
  destruct (parse_and_execute query w1) as [[b|e] w2] eqn:Hrun;
    [|right; now exists e, w2].
  cbn [snd] in Hkeep.
  destruct b.
  - apply IH; lia.
  - left.
    pose proof (only_exit_word_stops query w1 w2 Hrun) as Hexit.
    rewrite (exit_run query w1 Hexit (exit_word_nonempty query Hexit))
      in Hrun.
    injection Hrun as <-.
    exists (emit (Spoke goodbye) w1), (trace w1); split; [|reflexivity].
    now destruct n.
Qed.

Lemma main_after_greeting (n : nat) (w : World) :
  main n w
  = try_except (session_loop n RUNNING)
      (fun e => speak (closing e) ;; ret TERMINATED) (greeted w).
Proof.
  unfold main.
  pose proof (greeting_returns w) as Hgreet.
  unfold bind in Hgreet; unfold bind.
  destruct (speak (lit "Starting Alpha Assistant.") w) as [[u|e] w0];
    [|discriminate].
  destruct (wishme w0) as [[u'|e] w1]; [|discriminate].
  injection Hgreet as _ ->.
  unfold try_except.
  destruct (session_loop n RUNNING (greeted w)) as [[s|e] w2];
    [reflexivity|].
  unfold closing; now destruct (is_Exception e).
Qed.

End Ending.

(** X9.  A session always ends.  With more passes allowed than there
    are entries pending on the microphone and the keyboard, [main]
    returns with the loop left, and its last words are the farewell
    when an exit word was heard, "An error occurred. Exiting." when an
    exception other than an interrupt left the loop, and
    "Shutting down. Goodbye." after an interrupt. *)
Theorem session_ends (n : nat) (w : World) :
  pending w < n ->
  exists w' : World,
    main n w = (Ret TERMINATED, w')
    /\ ((exists t : list event,
            session_loop n RUNNING (greeted w) = (Ret TERMINATED, w')
            /\ trace w' = t ++ [Spoke goodbye])
        \/ (exists (e : exn) (w1 : World),
               session_loop n RUNNING (greeted w) = (Raise e, w1)
               /\ w' = emit (Spoke (closing e)) w1)).
Proof.
  intros Hn.
  rewrite main_after_greeting; unfold try_except.
  rewrite <- (greeting_takes_no_input w) in Hn.
  destruct (loop_ends n (greeted w) Hn)
    as [(w' & t & Hloop & Hlast)|(e & w1 & Hloop)]; rewrite Hloop.
  - exists w'; split; [reflexivity|].
    left; now exists t.
  - exists (emit (Spoke (closing e)) w1); split.
    + unfold bind; rewrite (speak_says (closing e) w1); [reflexivity|].
      unfold closing; now destruct (is_Exception e).
    + right; now exists e, w1.
Qed.

(** A joke is asked for, then nobody speaks and the keyboard is
    interrupted: two entries pending, three passes allowed. *)
Lemma session_ends_witness :
  let w := Sample.session_with Sample.laptop
             [Heard (Transcript (lit "Tell me a joke"))] [CtrlC] in
  pending w < 3
  /\ exists w' : World,
       main 3 w = (Ret TERMINATED, w')
       /\ ((exists t : list event,
               session_loop 3 RUNNING (greeted w) = (Ret TERMINATED, w')
               /\ trace w' = t ++ [Spoke goodbye])
           \/ (exists (e : exn) (w1 : World),
                  session_loop 3 RUNNING (greeted w) = (Raise e, w1)
                  /\ w' = emit (Spoke (closing e)) w1)).
Proof.
  intros w.
  assert (Hpending : pending w < 3) by (cbn; lia).
  split; [exact Hpending|exact (session_ends 3 w Hpending)].
Defined.

(** * Further properties of e-mail and of the note file *)

(** X10.  With both credentials set, [send_email] opens one SMTP
    session for the message "From: user / To: recipient / Subject:
    subject / blank line / body", returns [true] and says so when the
    server takes it, returns [false] and says so when any step fails.
    Altogether it returns [true] exactly when both credentials are set
    and the exchange with the server succeeds. *)
Theorem send_email_outcome (to_address subject body : str) (w : World) :
  let user := value (environ (env w) EMAIL_USER) in
  let message := email_message user to_address subject body in
  let fails := smtp_fails (env w) user to_address message in
  (unset (environ (env w) EMAIL_USER) = false ->
   unset (environ (env w) EMAIL_PASS) = false ->
   send_email to_address subject body w
   = (Ret (negb fails),
      emit (Spoke (if fails then email_failed else email_sent))
        (emit (SmtpSession user to_address message)
           (emit (Invoked (H_send_email to_address subject body)) w))))
  /\ (fst (send_email to_address subject body w) = Ret true
      <-> unset (environ (env w) EMAIL_USER) = false
          /\ unset (environ (env w) EMAIL_PASS) = false
          /\ fails = false).
Proof.
  intros user message fails; subst user message fails.
  unfold send_email, email_message, speak, bind, tell, ask, ret;
    cbn [env emit].
  destruct (unset (environ (env w) EMAIL_USER)),
    (unset (environ (env w) EMAIL_PASS)); cbn [orb];
    reduce_run; cbn [fst];
    (split; [intros; try discriminate|split; [intros H|intros (H1 & H2 & H3)];
                                      try discriminate]).
  - destruct (smtp_fails _ _ _ _); reflexivity.
  - destruct (smtp_fails _ _ _ _); [discriminate|auto].
  - now rewrite H3.
Qed.

(** The sample mailer has both credentials and a server that accepts. *)
Lemma send_email_outcome_witness :
  let w := Sample.session_with Sample.mailer [] [] in
  let message :=
    email_message (lit "me@example.com") (lit "a@b.c") (lit "hi")
      (lit "hello") in
  send_email (lit "a@b.c") (lit "hi") (lit "hello") w
  = (Ret true,
     emit (Spoke email_sent)
       (emit (SmtpSession (lit "me@example.com") (lit "a@b.c") message)
          (emit (Invoked (H_send_email (lit "a@b.c") (lit "hi")
                            (lit "hello"))) w))).
Proof.
  intros w message.
  destruct (send_email_outcome (lit "a@b.c") (lit "hi") (lit "hello") w)
    as (Hrun & _).
  exact (Hrun eq_refl eq_refl).
Defined.

(** X11.  The note file holds one note, the last one saved: after two
    successful saves to the same file, [read_memory] reports the second
    note (trimmed; no carriage return in it; the file readable) and
    nothing of the first. *)
Theorem last_note_wins (first second filename : str) (w : World) :
  write_fails (env w) filename = false ->
  read_fails (env w) filename = false ->
  contains [CR] second = false ->
  let w1 := snd (remember_to_file first filename w) in
  let w2 := snd (remember_to_file second filename w1) in
  read_memory filename w2
  = (Ret tt,
     if falsy (strip second)
     then emit (Spoke (lit "The memory file is empty."))
            (emit (Invoked (H_read_memory filename)) w2)
     else emit (Spoke (strip second))
            (emit (Spoke (lit "You asked me to remember the following:"))
               (emit (Invoked (H_read_memory filename)) w2))).
Proof.
  intros Hw Hr Hcr w1 w2; subst w1 w2.
  rewrite (remember_to_file_saves first filename w Hw); cbn [snd].
  rewrite remember_to_file_saves by exact Hw; cbn [snd].
  rewrite (read_memory_reports (encode_newlines (os (env w)) second)).
  - cbv zeta; now rewrite (newlines_round_trip _ second Hcr).
  - exact Hr.
  - cbn [files emit store]; now rewrite str_eqb_refl.
Qed.

(** "buy milk" is saved, then " call anna ". *)
Lemma last_note_wins_witness :
  let w := Sample.session_with Sample.laptop [] [] in
  let w1 := snd (remember_to_file (lit "buy milk") data_txt w) in
  let w2 := snd (remember_to_file (lit " call anna ") data_txt w1) in
  read_memory data_txt w2
  = (Ret tt,
     emit (Spoke (lit "call anna"))
       (emit (Spoke (lit "You asked me to remember the following:"))
          (emit (Invoked (H_read_memory data_txt)) w2))).
Proof.
  intros w w1 w2.
  exact (last_note_wins (lit "buy milk") (lit " call anna ") data_txt w
           eq_refl eq_refl eq_refl).
Defined.

(** * Further properties of a turn *)

(** X12.  Outside the three branches with a slot rule and the
    fallback, the words of the utterance beyond the keyword are not
    used: two non-empty utterances that take the same such branch run
    the same program.  A note or an e-mail subject spoken together
    with the keyword is therefore asked for again. *)
Theorem utterance_text_ignored (query other : str) (w : World) :
  falsy query = false ->
  falsy other = false ->
  match_intent query = match_intent other ->
  slot_rule_of (match_intent query) = None ->
  match_intent query <> FallbackSearch ->
  parse_and_execute query w = parse_and_execute other w.
Proof.
  intros Hq Ho Hsame Hrule Hfall.
  rewrite (parse_and_execute_dispatch query Hq).
  rewrite (parse_and_execute_dispatch other Ho), <- Hsame.
  destruct (match_intent query); try discriminate; try reflexivity.
  now elim Hfall.
Qed.

(** "remember that the keys are in the drawer" and "remember". *)
Lemma utterance_text_ignored_witness :
  let w := Sample.session_with Sample.laptop [] [Line (lit "milk")] in
  parse_and_execute (lit "remember that the keys are in the drawer") w
  = parse_and_execute (lit "remember") w.
Proof.
  intros w.
  apply (utterance_text_ignored
           (lit "remember that the keys are in the drawer")
           (lit "remember") w eq_refl eq_refl eq_refl eq_refl).
  discriminate.
Defined.

Section Blank.

Lemma blank_rstrip (s : str) : blank s = true -> rstrip s = [].
Proof.
  induction s as [|c s IH]; [reflexivity|].
  cbn [blank forallb]; intros H.
  apply andb_prop in H as [Hc Hs].
  cbn [rstrip]; now rewrite (IH Hs), Hc.
Qed.

Lemma blank_strip (s : str) : blank s = true -> strip s = [].
Proof. intros H; unfold strip; now rewrite (blank_rstrip s H). Qed.

Lemma blank_lower (s : str) : blank (lower s) = blank s.
Proof.
  unfold blank, lower.
  induction s as [|c s IH]; [reflexivity|].
  cbn [map forallb].
  now rewrite isspace_lower_char, IH.
Qed.

(** The first character of a substring occurs in the string. *)
Lemma contains_first_char (c : ascii) (k s : str) :
  contains (c :: k) s = true -> In c s.
Proof.
  intros H; destruct (contains_split _ _ H) as (l & r & ->).
  apply in_or_app; right; now left.
Qed.

(** Keywords that begin with a letter do not occur in a blank string. *)
Lemma no_keyword_in_blank (keywords : list str) (s : str) :
  forallb (fun k => match k with
                    | [] => false
                    | c :: _ => negb (isspace c)
                    end) keywords = true ->
  blank s = true ->
  any_in keywords s = false.
Proof.
  intros Hk Hs; induction keywords as [|k keywords IH]; [reflexivity|].
  cbn [forallb] in Hk; apply andb_prop in Hk as [Hc Hrest].
  cbn [any_in existsb]; fold (any_in keywords s).
  rewrite (IH Hrest), orb_false_r.
  destruct k as [|c k]; [discriminate|].
  destruct (contains (c :: k) s) eqn:E; [|reflexivity].
  apply contains_first_char in E.
  unfold blank in Hs; rewrite forallb_forall in Hs.
  rewrite (Hs c E) in Hc; discriminate.
Qed.

(** A transcript comes back lower-cased, the keyboard untouched. *)
Lemma take_command_transcript (w : World) (t : str) :
  next_voice w = Heard (Transcript t) ->
  take_command w
  = (Ret (lower t),
     emit (Spoke (lit "Recognizing..."))
       (emit (Spoke (lit "Listening...")) (set_voice (tl (voice w)) w))).
Proof.
  unfold take_command, microphone, bind; intros ->; reflexivity.
Qed.

(** The typed fallback takes the next line, trimmed and lower-cased. *)
Lemma take_command_typed (w : World) (l : str) (k : list typed_input) :
  microphone_works w = true ->
  typed_path w = true ->
  keyboard w = Line l :: k ->
  exists w1 : World,
    take_command w = (Ret (lower (strip l)), w1)
    /\ keyboard w1 = k
    /\ files w1 = files w
    /\ invocations (trace w1) = invocations (trace w)
    /\ external_calls (trace w1) = external_calls (trace w).
Proof.
  unfold take_command, microphone, type_command, input, microphone_works,
    typed_path, next_voice, speak, bind, tell, ret, raise.
  destruct w as [e v ks f t]; cbn [voice keyboard].
  intros Hmic Htyped ->.
  destruct v as [|[| | |[q| | |]] v]; try discriminate; cbn;
    eexists; repeat split; cbn;
    rewrite ?invocations_app, ?external_calls_app; cbn;
    rewrite ?app_nil_r; try reflexivity; lia.
Qed.

End Blank.

(** X13.  A typed line of whitespace only is an empty utterance: when
    the typed fallback is taken and such a line is next, the pass of
    the loop uses up the line, enters no handler, calls nothing
    outside, leaves the files alone, and the loop stays RUNNING. *)
Theorem blank_line_is_noop (w : World) (l : str) (k : list typed_input) :
  microphone_works w = true ->
  typed_path w = true ->
  keyboard w = Line l :: k ->
  blank l = true ->
  exists w' : World,
    session_loop 1 RUNNING w = (Ret RUNNING, w')
    /\ keyboard w' = k
    /\ files w' = files w
    /\ invocations (trace w') = invocations (trace w)
    /\ external_calls (trace w') = external_calls (trace w).
Proof.
  intros Hmic Htyped Hkeys Hblank.
  destruct (take_command_typed w l k Hmic Htyped Hkeys)
    as (w1 & Htake & Hrest).
  rewrite (blank_strip l Hblank) in Htake.
  exists w1; split; [|exact Hrest].
  cbn [session_loop]; unfold turn, bind.
  now rewrite Htake.
Qed.

(** Nobody speaks and three spaces are typed. *)
Lemma blank_line_is_noop_witness :
  let w := Sample.session_with Sample.laptop []
             [Line (lit "   "); Line (lit "next")] in
  exists w' : World,
    session_loop 1 RUNNING w = (Ret RUNNING, w')
    /\ keyboard w' = [Line (lit "next")]
    /\ files w' = files w
    /\ invocations (trace w') = invocations (trace w)
    /\ external_calls (trace w') = external_calls (trace w).
Proof.
  intros w.
  exact (blank_line_is_noop w (lit "   ") [Line (lit "next")]
           eq_refl eq_refl eq_refl eq_refl).
Defined.

(** X14.  A transcript of whitespace only is not an empty utterance:
    it is not trimmed, no keyword occurs in it, and the pass of the
    loop sends it, as it is, to the web search. *)
Theorem blank_transcript_is_searched (w : World) (t : str) :
  next_voice w = Heard (Transcript t) ->
  falsy t = false ->
  blank t = true ->
  exists w' : World,
    turn w = (Ret true, w')
    /\ invocations (trace w')
       = invocations (trace w) ++ [H_search_in_chrome (lower t)]
    /\ In (BrowserTab (search_url (lower t))) (trace w').
Proof.
  intros Hvoice Ht Hblank.
  assert (Hq : falsy (lower t) = false) by (now destruct t).
  assert (Hb : blank (lower t) = true) by (now rewrite blank_lower).
  assert (Hi : match_intent (lower t) = FallbackSearch).
  { apply fallback_iff_no_trigger.
    now apply no_keyword_in_blank. }
  unfold turn, bind at 1.
  rewrite (take_command_transcript w t Hvoice).
  rewrite (parse_and_execute_dispatch (lower t) Hq), Hi; cbn [execute].
  unfold bind at 1; rewrite speak_says by reflexivity.
  unfold bind.
  match goal with
  | |- context [search_in_chrome (lower t) ?w0] =>
      destruct (search_in_chrome_runs (lower t) w0 Hq)
        as (w' & Hrun & Hinv & Htab)
  end.
  exists w'; split; [now rewrite Hrun|].
  split; [|exact Htab].
  rewrite Hinv; cbn [trace emit set_voice].
  rewrite !invocations_app; cbn [invocations app].
  now rewrite !app_nil_r.
Qed.

(** One space is heard. *)
Lemma blank_transcript_is_searched_witness :
  let w := Sample.session_with Sample.laptop
             [Heard (Transcript (lit " "))] [] in
  exists w' : World,
    turn w = (Ret true, w')
    /\ invocations (trace w')
       = invocations (trace w) ++ [H_search_in_chrome (lower (lit " "))]
    /\ In (BrowserTab (search_url (lower (lit " ")))) (trace w').
Proof.
  intros w.
  exact (blank_transcript_is_searched w (lit " ") eq_refl eq_refl eq_refl).
Defined.

Section Passes.


End Passes.


